(** * Markdown Combiner: a shallow embedding of the two command-line scripts

    The repository holds two variants of one script:
    - [src/tools/markdown-combiner/combine.ts], which lists directory entries
      with their file types, drops entries by folder name and file-name
      pattern, and fences the text of files that are not [.md]
      (module [Denylist] below);
    - [src/unnamed/part_000], which lists relative path strings, keeps the
      ones with a markdown extension and concatenates them verbatim
      (module [Allowlist] below).

    Strings are byte strings ([String.string]); on ASCII text they coincide
    with the script's strings, and the comparison used by the default sort is
    the code-unit order.  Outside ASCII a character is several bytes here and
    one or two code units in the script, so the order of the default sort and
    the dot of a regular expression are modelled for ASCII text only
    ([JS.ascii_only]); statements that depend on either say so.  The platform
    (file system, path functions, current directory) is a record of functions
    over an abstract store. *)

From Stdlib Require Import String Ascii List ZArith Bool Lia.
From Stdlib Require Import Sorting.Sorted Sorting.Permutation.
From Stdlib Require DecimalString.
Import ListNotations.

Local Open Scope list_scope.
Local Open Scope string_scope.

(** ** String and array primitives of the language *)

Module JS.

(** The line feed, written [\n] in the script's literals. *)
Definition LF : string := String (ascii_of_nat 10) EmptyString.

Definition CR : ascii := ascii_of_nat 13.

(** Text made of ASCII characters only: every byte is below 128, and is one
    code unit of the script's string. *)
Fixpoint ascii_only (s : string) : bool :=
  match s with
  | EmptyString => true
  | String (Ascii _ _ _ _ _ _ _ b7) s' => negb b7 && ascii_only s'
  end.

(** [s.endsWith(suf)]: some suffix of [s] is [suf]. *)
Fixpoint endsWith (s suf : string) : bool :=
  (s =? suf) ||
  match s with
  | EmptyString => false
  | String _ s' => endsWith s' suf
  end.

(** [s.includes(sub)]: [sub] starts at some position of [s]. *)
Fixpoint includes (s sub : string) : bool :=
  String.prefix sub s ||
  match s with
  | EmptyString => false
  | String _ s' => includes s' sub
  end.

(** [s.replace(pat, rep)] with a string pattern: only the first
    occurrence is replaced. *)
Fixpoint replace (s pat rep : string) : string :=
  if String.prefix pat s then rep ++ substring (String.length pat) (String.length s) s
  else match s with
       | EmptyString => EmptyString
       | String c s' => String c (replace s' pat rep)
       end.

(** [a.indexOf(x)], with [-1] for an absent element. *)
Fixpoint indexOf_from (a : list string) (x : string) (i : Z) : Z :=
  match a with
  | [] => (-1)%Z
  | y :: a' => if y =? x then i else indexOf_from a' x (i + 1)%Z
  end.

Definition indexOf (a : list string) (x : string) : Z := indexOf_from a x 0%Z.

(** [a[i]]: [None] stands for [undefined]. *)
Definition get (a : list string) (i : Z) : option string :=
  if (i <? 0)%Z then None else nth_error a (Z.to_nat i).

(** [v ?? d] *)
Definition nullish (v : option string) (d : string) : string :=
  match v with
  | Some x => x
  | None => d
  end.

(** [a.join(sep)] *)
Definition join (a : list string) (sep : string) : string := String.concat sep a.

(** [String(n)] for a length. *)
Definition string_of_nat (n : nat) : string :=
  DecimalString.NilEmpty.string_of_uint (Nat.to_uint n).

(** [a.sort()] without a comparator: the elements are compared through their
    string conversion, in code-unit order, and the sort is stable.  Insertion
    from the right keeps equal keys in their original order.  The comparison
    is that of bytes, which is the code-unit order on ASCII keys. *)
Section Sort.
Context {A : Type} (toString : A -> string).

Fixpoint insert (x : A) (l : list A) : list A :=
  match l with
  | [] => [x]
  | y :: l' => if (toString y <? toString x)%string then y :: insert x l' else x :: l
  end.

Definition sort (l : list A) : list A := fold_right insert [] l.

(** The order of adjacent elements in a sorted array. *)
Definition in_order (x y : A) : Prop := (toString x <=? toString y)%string = true.
End Sort.

(** *** The fragment of regular expressions the script builds

    [new RegExp(p)] for patterns made of literal characters, the dot and the
    star.  Any other syntax character is outside the fragment.  The dot
    stands for one character other than a line terminator.  On ASCII text
    that is one byte other than the line feed and the carriage return, which
    is what [atom_matches] and [line_terminator] say; the two other line
    terminators, U+2028 and U+2029, and characters of several bytes are not
    ASCII and not modelled. *)

Inductive atom : Type :=
| AnyChar
| Lit (c : ascii).

Definition regex : Type := list (atom * bool).

Definition syntax_character (c : ascii) : bool :=
  existsb (Ascii.eqb c)
    ["^"; "$"; "\"; "."; "*"; "+"; "?"; "("; ")"; "["; "]"; "{"; "}"; "|"]%char.

Definition parse_atom (c : ascii) : option atom :=
  if Ascii.eqb c "." then Some AnyChar
  else if syntax_character c then None
  else Some (Lit c).

Fixpoint RegExp (p : string) : option regex :=
  match p with
  | EmptyString => Some []
  | String c rest =>
      match parse_atom c with
      | None => None
      | Some a =>
          match rest with
          | String "*" rest' => option_map (cons (a, true)) (RegExp rest')
          | _ => option_map (cons (a, false)) (RegExp rest)
          end
      end
  end.

Definition line_terminator (c : ascii) : bool :=
  Ascii.eqb c (ascii_of_nat 10) || Ascii.eqb c CR.

Definition atom_matches (a : atom) (c : ascii) : bool :=
  match a with
  | AnyChar => negb (line_terminator c)
  | Lit d => Ascii.eqb c d
  end.

(** A match of [r] starts at the head of [s]; nothing anchors its end. *)
Fixpoint match_here (r : regex) (s : string) {struct r} : bool :=
  match r with
  | [] => true
  | (a, false) :: r' =>
      match s with
      | EmptyString => false
      | String c s' => atom_matches a c && match_here r' s'
      end
  | (a, true) :: r' =>
      (fix star (s : string) : bool :=
         match_here r' s ||
         match s with
         | EmptyString => false
         | String c s' => atom_matches a c && star s'
         end) s
  end.

(** [s.match(r)] is truthy when a match starts at some position of [s]. *)
Fixpoint search (r : regex) (s : string) : bool :=
  match_here r s ||
  match s with
  | EmptyString => false
  | String _ s' => search r s'
  end.

End JS.

(** ** The argument resolver (the same function in both scripts) *)

Definition getArgValue (args : list string) (flag defaultValue : string) : string :=
  let flagIndex := JS.indexOf args flag in
  if negb (flagIndex =? -1)%Z && (flagIndex + 1 <? Z.of_nat (List.length args))%Z
  then JS.nullish (JS.get args (flagIndex + 1)%Z) defaultValue
  else defaultValue.

(** ** The platform and the effects of a run *)

(** A value raised by [throw]: an [Error] object with its message, or
    anything else (shown here by its printed form). *)
Inductive thrown : Type :=
| ErrorObject (message : string)
| OtherValue (raw : string).

Inductive result (A : Type) : Type :=
| Ok (a : A)
| Throw (e : thrown).
Arguments Ok {A} a.
Arguments Throw {A} e.

(** [fs.Stats], of which the scripts only ask [isDirectory()]. *)
Record Stats : Type := { isDirectory : bool }.

(** [fs.Dirent], as returned by [readdir] with [withFileTypes]. *)
Record Dirent : Type := { name : string; parentPath : string; isFile : bool }.

(** What a run does that can be seen from outside, in order. *)
Inductive Event : Type :=
| ConsoleLog (s : string)
| ConsoleWarn (s : string)
| ConsoleError (args : list string)
| FsExists (path : string)
| FsStat (path : string)
| FsReaddir (path : string)
| FileText (path : string)
| BunWrite (path content : string).

(** The primitives the scripts import, over a store [FS]: [process.cwd],
    [path.resolve], [path.join], [exists], [stat], the recursive [readdir]
    without and with file types, [Bun.file(p).text()] and [Bun.write].
    Each may raise except the path functions and [exists].  Reading never
    changes the store; a write that raises leaves it as it was. *)
Record Platform (FS : Type) : Type := {
  cwd : result string;
  resolve : string -> string -> string;
  join : string -> string -> string;
  exists_ : FS -> string -> bool;
  stat : FS -> string -> result Stats;
  readdir : FS -> string -> result (list string);
  readdirWithFileTypes : FS -> string -> result (list Dirent);
  text : FS -> string -> result string;
  write : FS -> string -> string -> result FS
}.
Arguments cwd {FS} _.
Arguments resolve {FS} _ _ _.
Arguments join {FS} _ _ _.
Arguments exists_ {FS} _ _ _.
Arguments stat {FS} _ _ _.
Arguments readdir {FS} _ _ _.
Arguments readdirWithFileTypes {FS} _ _ _.
Arguments text {FS} _ _ _.
Arguments write {FS} _ _ _ _.

(** How the process ends. *)
Record Outcome (FS : Type) : Type := {
  exitCode : Z;
  store : FS;
  events : list Event
}.
Arguments exitCode {FS} _.
Arguments store {FS} _.
Arguments events {FS} _.

Module IO.
Section Monad.
Context {FS : Type}.

(** A computation reads and updates the store, appends to the event
    trace, and returns a value or raises. *)
Definition M (A : Type) : Type := FS -> result A * FS * list Event.

Definition ret {A} (a : A) : M A := fun s => (Ok a, s, []).

Definition throw {A} (e : thrown) : M A := fun s => (Throw e, s, []).

Definition bind {A B} (m : M A) (k : A -> M B) : M B :=
  fun s =>
    match m s with
    | (Ok a, s1, t1) =>
        match k a s1 with
        | (r, s2, t2) => (r, s2, (t1 ++ t2)%list)
        end
    | (Throw e, s1, t1) => (Throw e, s1, t1)
    end.

Definition emit (ev : Event) : M unit := fun s => (Ok tt, s, [ev]).

(** A primitive that only reads the store. *)
Definition ask {A} (ev : Event) (f : FS -> result A) : M A :=
  fun s => (f s, s, [ev]).

(** A primitive that replaces the store when it succeeds. *)
Definition update (ev : Event) (f : FS -> result FS) : M unit :=
  fun s =>
    match f s with
    | Ok s' => (Ok tt, s', [ev])
    | Throw e => (Throw e, s, [ev])
    end.

Definition of_result {A} (r : result A) : M A := fun s => (r, s, []).

Definition when (b : bool) (m : M unit) : M unit := if b then m else ret tt.

(** The [catch] block's report of a raised value. *)
Definition report (e : thrown) : Event :=
  match e with
  | ErrorObject message => ConsoleError [JS.LF ++ "❌ An error occurred: " ++ message]
  | OtherValue raw => ConsoleError [JS.LF ++ "❌ An unknown error occurred."; raw]
  end.

(** The top-level [try]/[catch]: a raised value is reported on the error
    channel and the process exits with code 1; otherwise the script runs
    to its end and the exit code is 0. *)
Definition run_process (main : M unit) (s : FS) : Outcome FS :=
  match main s with
  | (Ok _, s', t) => {| exitCode := 0; store := s'; events := t |}
  | (Throw e, s', t) => {| exitCode := 1; store := s'; events := (t ++ [report e])%list |}
  end.
End Monad.
Arguments M : clear implicits.

Module Notations.
Notation "x <- m ;; k" := (bind m (fun x => k))
  (at level 61, m at next level, right associativity).
Notation "m ;; k" := (bind m (fun _ => k))
  (at level 61, right associativity).
End Notations.

Section Primitives.
Context {FS : Type} (P : Platform FS).

Definition console_log (s : string) : M FS unit := emit (ConsoleLog s).
Definition console_warn (s : string) : M FS unit := emit (ConsoleWarn s).
Definition process_cwd : M FS string := of_result (cwd P).
Definition fs_exists (p : string) : M FS bool :=
  ask (FsExists p) (fun s => Ok (exists_ P s p)).
Definition fs_stat (p : string) : M FS Stats := ask (FsStat p) (fun s => stat P s p).
Definition fs_readdir (p : string) : M FS (list string) :=
  ask (FsReaddir p) (fun s => readdir P s p).
Definition fs_readdir_withFileTypes (p : string) : M FS (list Dirent) :=
  ask (FsReaddir p) (fun s => readdirWithFileTypes P s p).
Definition bun_file_text (p : string) : M FS string :=
  ask (FileText p) (fun s => text P s p).
Definition bun_write (p content : string) : M FS unit :=
  update (BunWrite p content) (fun s => write P s p content).
End Primitives.
End IO.

Import IO.Notations.

(** The first fragment of the combined document. *)
Definition title : string := "# Combined Documentation" ++ JS.LF.

(** The separator pushed before each file's text. *)
Definition separator_of (path : string) : string :=
  JS.LF ++ "---" ++ JS.LF ++ "## Source: " ++ path ++ JS.LF ++ "---" ++ JS.LF.

(** ** [src/unnamed/part_000]: markdown extensions only, text verbatim *)

Module Allowlist.
Section Script.
Context {FS : Type} (P : Platform FS).

(** The filter of step 3.  [readdir] yields strings here, so the
    [typeof file === 'string'] conjunct always holds. *)
Definition isMarkdown (file : string) : bool :=
  JS.endsWith file ".md" || JS.endsWith file ".mdx" || JS.endsWith file ".markdown".

Definition markdownFiles_of (allFiles : list string) : list string :=
  JS.sort (fun s => s) (filter isMarkdown allFiles).

(** The [for ... of] loop of step 5, threading [combinedContent]. *)
Fixpoint combine_loop (sourcePath : string) (markdownFiles : list string)
         (combinedContent : list string) : IO.M FS (list string) :=
  match markdownFiles with
  | [] => IO.ret combinedContent
  | relativePath :: rest =>
      IO.console_log ("   ↳ Combining: " ++ relativePath) ;;
      let fullPath := join P sourcePath relativePath in
      let separator := separator_of relativePath in
      fileContent <- IO.bun_file_text P fullPath ;;
      combine_loop sourcePath rest (combinedContent ++ [separator; fileContent])%list
  end.

Definition main (args : list string) : IO.M FS unit :=
  let srcDir := getArgValue args "--src" "." in
  let outFile := getArgValue args "--out" "./combined.md" in
  here <- IO.process_cwd P ;;
  let sourcePath := resolve P here srcDir in
  here' <- IO.process_cwd P ;;
  let outputPath := resolve P here' outFile in
  IO.console_log ("🔍 Searching for Markdown files in '" ++ sourcePath ++ "'...") ;;
  found <- IO.fs_exists P sourcePath ;;
  IO.when (negb found)
    (IO.throw (ErrorObject ("Source directory not found: " ++ sourcePath))) ;;
  sourceStats <- IO.fs_stat P sourcePath ;;
  IO.when (negb (isDirectory sourceStats))
    (IO.throw (ErrorObject ("Source path is not a directory: " ++ sourcePath))) ;;
  allFiles <- IO.fs_readdir P sourcePath ;;
  let markdownFiles := markdownFiles_of allFiles in
  if (List.length markdownFiles =? 0)%nat then
    IO.console_warn ("⚠️ No Markdown files found in '" ++ sourcePath ++ "'. Exiting.")
  else
    IO.console_log ("📚 Found " ++ JS.string_of_nat (List.length markdownFiles)
                    ++ " files to combine.") ;;
    combinedContent <- combine_loop sourcePath markdownFiles [title] ;;
    IO.bun_write P outputPath (JS.join combinedContent JS.LF) ;;
    IO.console_log (JS.LF ++ "✅ Successfully combined all files into '"
                    ++ outputPath ++ "'!").

Definition run (args : list string) (s : FS) : Outcome FS :=
  IO.run_process (main args) s.
End Script.
End Allowlist.

(** ** [src/tools/markdown-combiner/combine.ts]: exclusions, fenced text *)

Module Denylist.
Section Script.
Context {FS : Type} (P : Platform FS).

Definition excludeFolders : list string :=
  [".git"; "tmp"; "node_modules"; "dist"; "build"].

Definition excludeFiles : list string :=
  ["*.DS_Store"; "*.log"; "*.tmp"; "package-lock.json"; "yarn.lock"; "bun.lockb"].

Definition isExcludedFolder (file : Dirent) : bool :=
  existsb (fun folder => JS.includes (parentPath file) folder) excludeFolders.

(** [file.name.match(new RegExp(pattern.replace('*', '.*')))]; every
    pattern of [excludeFiles] lies in the modelled fragment. *)
Definition name_matches (file : Dirent) (pattern : string) : bool :=
  match JS.RegExp (JS.replace pattern "*" ".*") with
  | Some r => JS.search r (name file)
  | None => false
  end.

Definition isExcludedFile (file : Dirent) : bool :=
  existsb (name_matches file) excludeFiles.

Definition keep (file : Dirent) : bool :=
  negb (isExcludedFolder file) && negb (isExcludedFile file) && isFile file.

(** The string conversion of a [Dirent] is its class tag under Bun, the
    same string for every entry. *)
Definition Dirent_toString (d : Dirent) : string := "[object Dirent]".

Definition files_of (allFiles : list Dirent) : list Dirent :=
  JS.sort Dirent_toString (filter keep allFiles).

Definition fence (fileContent : string) : string :=
  "```" ++ JS.LF ++ fileContent ++ JS.LF ++ "```".

Fixpoint combine_loop (files : list Dirent) (combinedContent : list string)
  : IO.M FS (list string) :=
  match files with
  | [] => IO.ret combinedContent
  | fileInfo :: rest =>
      let fullPath := join P (parentPath fileInfo) (name fileInfo) in
      IO.console_log ("   ↳ Combining: " ++ fullPath) ;;
      let separator := separator_of fullPath in
      fileContent <- IO.bun_file_text P fullPath ;;
      if negb (JS.endsWith (name fileInfo) ".md")
      then combine_loop rest (combinedContent ++ [separator; fence fileContent])%list
      else combine_loop rest (combinedContent ++ [separator; fileContent])%list
  end.

Definition main (args : list string) : IO.M FS unit :=
  let srcDir := getArgValue args "--src" "." in
  let outFile := getArgValue args "--out" "./combined.md" in
  here <- IO.process_cwd P ;;
  let sourcePath := resolve P here srcDir in
  here' <- IO.process_cwd P ;;
  let outputPath := resolve P here' outFile in
  IO.console_log ("🔍 Searching for Markdown files in '" ++ sourcePath ++ "'...") ;;
  found <- IO.fs_exists P sourcePath ;;
  IO.when (negb found)
    (IO.throw (ErrorObject ("Source directory not found: " ++ sourcePath))) ;;
  sourceStats <- IO.fs_stat P sourcePath ;;
  IO.when (negb (isDirectory sourceStats))
    (IO.throw (ErrorObject ("Source path is not a directory: " ++ sourcePath))) ;;
  allFiles <- IO.fs_readdir_withFileTypes P sourcePath ;;
  let files := files_of allFiles in
  if (List.length files =? 0)%nat then
    IO.console_warn ("⚠️ No Markdown files found in '" ++ sourcePath ++ "'. Exiting.")
  else
    IO.console_log ("📚 Found " ++ JS.string_of_nat (List.length files)
                    ++ " files to combine.") ;;
    combinedContent <- combine_loop files [title] ;;
    IO.bun_write P outputPath (JS.join combinedContent JS.LF) ;;
    IO.console_log (JS.LF ++ "✅ Successfully combined all files into '"
                    ++ outputPath ++ "'!").

Definition run (args : list string) (s : FS) : Outcome FS :=
  IO.run_process (main args) s.
End Script.
End Denylist.

(** ** A small in-memory platform

    A store is a listing of absolute paths with what they hold, in the order
    in which the directory walk reports them.  It serves to run the scripts
    on concrete trees.  [resolve] and [join] agree with the path module on
    the paths used below (no [..], no doubled or trailing slash). *)

Module MemFS.

Inductive node : Type :=
| File (content : string)
| Directory.

Definition store : Type := list (string * node).

Fixpoint lookup (s : store) (p : string) : option node :=
  match s with
  | [] => None
  | (q, n) :: s' => if q =? p then Some n else lookup s' p
  end.

Fixpoint put (s : store) (p content : string) : store :=
  match s with
  | [] => [(p, File content)]
  | (q, n) :: s' => if q =? p then (q, File content) :: s' else (q, n) :: put s' p content
  end.

Definition drop (n : nat) (s : string) : string := substring n (String.length s) s.

(** The path of [p] relative to [dir], when [p] lies below [dir]. *)
Definition below (dir p : string) : option string :=
  if String.prefix (dir ++ "/") p then Some (drop (String.length dir + 1) p) else None.

Fixpoint basename (p : string) : string :=
  match p with
  | EmptyString => EmptyString
  | String c p' =>
      if JS.includes p' "/" then basename p'
      else if Ascii.eqb c "/" then p' else p
  end.

Definition dirname (p : string) : string :=
  substring 0 (String.length p - String.length (basename p) - 1) p.

Definition is_file (n : node) : bool :=
  match n with
  | File _ => true
  | Directory => false
  end.

Definition mem_resolve (from to : string) : string :=
  if String.prefix "/" to then to
  else if to =? "." then from
  else if String.prefix "./" to then from ++ "/" ++ drop 2 to
  else from ++ "/" ++ to.

Definition mem_join (a b : string) : string := a ++ "/" ++ b.

Definition mem_stat (s : store) (p : string) : result Stats :=
  match lookup s p with
  | Some n => Ok {| isDirectory := negb (is_file n) |}
  | None => Throw (ErrorObject ("ENOENT: no such file or directory, stat '" ++ p ++ "'"))
  end.

Fixpoint list_names (s : store) (dir : string) : list string :=
  match s with
  | [] => []
  | (q, _) :: s' =>
      match below dir q with
      | Some rel => rel :: list_names s' dir
      | None => list_names s' dir
      end
  end.

Fixpoint list_dirents (s : store) (dir : string) : list Dirent :=
  match s with
  | [] => []
  | (q, n) :: s' =>
      match below dir q with
      | Some _ =>
          {| name := basename q; parentPath := dirname q; isFile := is_file n |}
            :: list_dirents s' dir
      | None => list_dirents s' dir
      end
  end.

Definition mem_text (s : store) (p : string) : result string :=
  match lookup s p with
  | Some (File content) => Ok content
  | Some Directory =>
      Throw (ErrorObject ("EISDIR: illegal operation on a directory, read '" ++ p ++ "'"))
  | None => Throw (ErrorObject ("ENOENT: no such file or directory, open '" ++ p ++ "'"))
  end.

Definition mem_write (s : store) (p content : string) : result store :=
  match lookup s p with
  | Some Directory =>
      Throw (ErrorObject ("EISDIR: illegal operation on a directory, open '" ++ p ++ "'"))
  | _ => Ok (put s p content)
  end.

Definition platform (here : string) : Platform store :=
  {| cwd := Ok here;
     resolve := mem_resolve;
     join := mem_join;
     exists_ := fun s p => match lookup s p with Some _ => true | None => false end;
     stat := mem_stat;
     readdir := fun s p => Ok (list_names s p);
     readdirWithFileTypes := fun s p => Ok (list_dirents s p);
     text := mem_text;
     write := mem_write |}.

(** A working directory with three files, listed out of name order;
    the directory itself is part of the store. *)
Definition tree_zba : store :=
  [ ("/w", Directory);
    ("/w/z.md", File "Z");
    ("/w/b.txt", File "B");
    ("/w/a.md", File "A") ].

(** The same directory with one markdown file. *)
Definition tree_a : store :=
  [ ("/w", Directory);
    ("/w/a.md", File "A") ].

(** With one text file. *)
Definition tree_b : store :=
  [ ("/w", Directory);
    ("/w/b.txt", File "B") ].

(** With a log file only. *)
Definition tree_log : store :=
  [ ("/w", Directory);
    ("/w/x.log", File "L") ].

(** With a directory whose name ends in [.md]. *)
Definition tree_dir : store :=
  [ ("/w", Directory);
    ("/w/notes.md", Directory);
    ("/w/notes.md/x.txt", File "X") ].

(** The command line without options, and with each option. *)
Definition argv : list string := ["bun"; "combine.ts"].

Definition argv_src (p : string) : list string := ["bun"; "combine.ts"; "--src"; p].

Definition argv_out (p : string) : list string := ["bun"; "combine.ts"; "--out"; p].

End MemFS.

(** ** The output and the exclusions as the specification words them *)

Module Described.

(** A per-file block: the separator [\n---\n## Source: <path>\n---\n]
    and the body, each preceded by the newline that joins the fragments. *)
Definition block (path body : string) : string :=
  JS.LF ++ (JS.LF ++ "---" ++ JS.LF ++ "## Source: " ++ path ++ JS.LF ++ "---" ++ JS.LF)
        ++ JS.LF ++ body.

Fixpoint blocks (l : list (string * string)) : string :=
  match l with
  | [] => ""
  | (path, body) :: l' => block path body ++ blocks l'
  end.

(** The title line followed by the blocks, in order. *)
Definition document (l : list (string * string)) : string :=
  "# Combined Documentation" ++ JS.LF ++ blocks l.

(** A body wrapped in a fenced literal block. *)
Definition fenced (body : string) : string := "```" ++ JS.LF ++ body ++ JS.LF ++ "```".

(** A glob-like pattern against a whole file name: [*] stands for zero or
    more characters, every other character for itself. *)
Fixpoint glob_match (pattern name : string) {struct pattern} : bool :=
  match pattern with
  | EmptyString => name =? ""
  | String "*" pattern' =>
      (fix any (n : string) : bool :=
         glob_match pattern' n ||
         match n with
         | EmptyString => false
         | String _ n' => any n'
         end) name
  | String c pattern' =>
      match name with
      | EmptyString => false
      | String d name' => Ascii.eqb c d && glob_match pattern' name'
      end
  end.

(** The exclusion rule of the denylist policy as the specification states
    it. *)
Definition excluded (file : Dirent) : bool :=
  existsb (fun folder => JS.includes (parentPath file) folder) Denylist.excludeFolders
  || existsb (fun pattern => glob_match pattern (name file)) Denylist.excludeFiles
  || negb (isFile file).

(** The calls of the write primitive in a trace, in order. *)
Definition writes (t : list Event) : list (string * string) :=
  flat_map (fun ev => match ev with
                      | BunWrite path content => [(path, content)]
                      | _ => []
                      end) t.

(** The paths handed to the file-read primitive in a trace, in order. *)
Definition reads (t : list Event) : list string :=
  flat_map (fun ev => match ev with
                      | FileText path => [path]
                      | _ => []
                      end) t.

(** The paths handed to the directory-listing primitive in a trace. *)
Definition listings (t : list Event) : list string :=
  flat_map (fun ev => match ev with
                      | FsReaddir path => [path]
                      | _ => []
                      end) t.

(** The argument lists of the [console.error] calls in a trace, in order
    ([console.warn] is a separate event and is not counted). *)
Definition errors (t : list Event) : list (list string) :=
  flat_map (fun ev => match ev with
                      | ConsoleError args => [args]
                      | _ => []
                      end) t.

End Described.

(** The two resolved paths of step 1. *)
Definition sourcePath_of {FS} (P : Platform FS) (here : string) (args : list string) : string :=
  resolve P here (getArgValue args "--src" ".").

Definition outputPath_of {FS} (P : Platform FS) (here : string) (args : list string) : string :=
  resolve P here (getArgValue args "--out" "./combined.md").

(** The messages of the scripts, as trace events. *)
Definition searching (sourcePath : string) : Event :=
  ConsoleLog ("🔍 Searching for Markdown files in '" ++ sourcePath ++ "'...").

Definition not_found (sourcePath : string) : thrown :=
  ErrorObject ("Source directory not found: " ++ sourcePath).

Definition not_a_directory (sourcePath : string) : thrown :=
  ErrorObject ("Source path is not a directory: " ++ sourcePath).

Definition no_files (sourcePath : string) : Event :=
  ConsoleWarn ("⚠️ No Markdown files found in '" ++ sourcePath ++ "'. Exiting.").

Definition found_files (n : nat) : Event :=
  ConsoleLog ("📚 Found " ++ JS.string_of_nat n ++ " files to combine.").

Definition combining (path : string) : Event := ConsoleLog ("   ↳ Combining: " ++ path).

Definition success (outputPath : string) : Event :=
  ConsoleLog (JS.LF ++ "✅ Successfully combined all files into '" ++ outputPath ++ "'!").

(** What [join] appends after the first fragment. *)
Fixpoint join_tail (l : list string) : string :=
  match l with
  | [] => ""
  | x :: l' => JS.LF ++ x ++ join_tail l'
  end.

(** ** What a run reads and assembles, per script *)

Section Assembled.
Context {FS : Type} (P : Platform FS) (s : FS).

(** Every candidate of [files] is read from store [s] with the text at the
    same position of [contents]. *)
Definition allow_reads_ok (sourcePath : string) (files contents : list string) : Prop :=
  Forall2 (fun relativePath c => text P s (join P sourcePath relativePath) = Ok c)
          files contents.

Definition allow_loop_events (sourcePath : string) (files : list string) : list Event :=
  flat_map (fun relativePath =>
              [combining relativePath; FileText (join P sourcePath relativePath)]) files.

(** Label and body of each block of the allowlist script. *)
Definition allow_blocks (files contents : list string) : list (string * string) :=
  combine files contents.

Definition deny_fullPath (fileInfo : Dirent) : string :=
  join P (parentPath fileInfo) (name fileInfo).

Definition deny_reads_ok (files : list Dirent) (contents : list string) : Prop :=
  Forall2 (fun fileInfo c => text P s (deny_fullPath fileInfo) = Ok c) files contents.

Definition deny_loop_events (files : list Dirent) : list Event :=
  flat_map (fun fileInfo =>
              [combining (deny_fullPath fileInfo); FileText (deny_fullPath fileInfo)]) files.

(** The body of a block of the denylist script: the text itself for a
    name ending in [.md], the fenced text otherwise. *)
Definition deny_body (fileInfo : Dirent) (c : string) : string :=
  if JS.endsWith (name fileInfo) ".md" then c else Described.fenced c.

Definition deny_blocks (files : list Dirent) (contents : list string)
  : list (string * string) :=
  map (fun fc => (deny_fullPath (fst fc), deny_body (fst fc) (snd fc)))
      (combine files contents).
End Assembled.

(** * Properties *)

(** ** Facts about the language primitives *)

Section JSFacts.

Lemma append_nil_r (s : string) : s ++ "" = s.
Proof. induction s as [|c s IH]; simpl; [reflexivity | now rewrite IH]. Qed.

Lemma append_assoc (a b c : string) : (a ++ b) ++ c = a ++ (b ++ c).
Proof. induction a as [|x a IH]; simpl; [reflexivity | now rewrite IH]. Qed.

Lemma endsWith_spec (s suf : string) :
  JS.endsWith s suf = true <-> exists pre, s = pre ++ suf.
Proof.
  induction s as [|c s IH]; cbn [JS.endsWith].
  - rewrite orb_false_r, String.eqb_eq. split.
    + intros <-. now exists "".
    + intros [pre H]. destruct pre; simpl in H; [easy | discriminate].
  - rewrite orb_true_iff, String.eqb_eq, IH. split.
    + intros [<- | [pre ->]]; [now exists "" | now exists (String c pre)].
    + intros [[|d pre] H]; simpl in H; [now left | right].
      injection H as -> ->. now exists pre.
Qed.

Lemma indexOf_from_absent (a : list string) (x : string) (i : Z) :
  ~ In x a -> JS.indexOf_from a x i = (-1)%Z.
Proof.
  revert i. induction a as [|y a IH]; intros i Hno; simpl; [reflexivity|].
  destruct (String.eqb_spec y x) as [->|Hne].
  - exfalso. apply Hno. now left.
  - apply IH. intros Hin. apply Hno. now right.
Qed.

Lemma indexOf_from_first (pre rest : list string) (x : string) (i : Z) :
  ~ In x pre ->
  JS.indexOf_from (pre ++ x :: rest) x i = (i + Z.of_nat (List.length pre))%Z.
Proof.
  revert i. induction pre as [|y pre IH]; intros i Hno; simpl List.length; simpl app.
  - simpl. rewrite String.eqb_refl. lia.
  - simpl. destruct (String.eqb_spec y x) as [->|Hne].
    + exfalso. apply Hno. now left.
    + rewrite IH by (intros Hin; apply Hno; now right). lia.
Qed.

Lemma get_after (pre : list string) (x v : string) (post : list string) :
  JS.get (pre ++ x :: v :: post) (Z.of_nat (List.length pre) + 1)%Z = Some v.
Proof.
  unfold JS.get.
  destruct (Z.ltb_spec (Z.of_nat (List.length pre) + 1) 0); [lia|].
  replace (Z.to_nat (Z.of_nat (List.length pre) + 1)) with (List.length pre + 1)%nat by lia.
  rewrite nth_error_app2 by lia.
  replace (List.length pre + 1 - List.length pre)%nat with 1%nat by lia.
  reflexivity.
Qed.

End JSFacts.

(** ** The argument resolver *)

(** C8.  Let [pre] be a stretch of the argument vector without the flag.
    If the vector continues with the flag and a token, that token is
    returned, whatever it is and whatever follows; if the flag ends the
    vector, or the vector is [pre] alone (the flag is absent), the default
    is returned.  The resolver is a function of its three arguments only. *)
Theorem getArgValue_first_occurrence
    (flag defaultValue : string) (pre : list string) (Hpre : ~ In flag pre) :
  (forall v post, getArgValue (pre ++ flag :: v :: post) flag defaultValue = v) /\
  getArgValue (pre ++ [flag]) flag defaultValue = defaultValue /\
  getArgValue pre flag defaultValue = defaultValue.
Proof.
  unfold getArgValue, JS.indexOf. repeat split.
  - intros v post.
    rewrite indexOf_from_first by assumption.
    rewrite length_app. simpl List.length.
    destruct (Z.eqb_spec (0 + Z.of_nat (List.length pre)) (-1)); [lia|].
    destruct (Z.ltb_spec (0 + Z.of_nat (List.length pre) + 1)
                (Z.of_nat (List.length pre + S (S (List.length post))))); [|lia].
    simpl andb. cbv iota.
    replace (0 + Z.of_nat (List.length pre) + 1)%Z
      with (Z.of_nat (List.length pre) + 1)%Z by lia.
    now rewrite get_after.
  - rewrite indexOf_from_first by assumption.
    rewrite length_app. simpl List.length.
    destruct (Z.eqb_spec (0 + Z.of_nat (List.length pre)) (-1)); [lia|].
    destruct (Z.ltb_spec (0 + Z.of_nat (List.length pre) + 1)
                (Z.of_nat (List.length pre + 1))); [lia|].
    reflexivity.
  - rewrite indexOf_from_absent by assumption. reflexivity.
Qed.

Lemma getArgValue_first_occurrence_witness :
  ~ In "--src" ["bun"; "combine.ts"] /\
  getArgValue ["bun"; "combine.ts"; "--src"; "--out"; "x"; "--src"; "y"] "--src" "." = "--out" /\
  getArgValue ["bun"; "combine.ts"; "--src"] "--src" "." = "." /\
  getArgValue ["bun"; "combine.ts"] "--src" "." = ".".
Proof.
  assert (H : ~ In "--src" ["bun"; "combine.ts"]).
  { simpl. intros [H | [H | []]]; discriminate H. }
  split; [exact H|].
  destruct (getArgValue_first_occurrence "--src" "." ["bun"; "combine.ts"] H)
    as (Hnext & Hlast & Habsent).
  split; [|split].
  - exact (Hnext "--out" ["x"; "--src"; "y"]).
  - exact Hlast.
  - exact Habsent.
Defined.

(** ** Facts about the effect monad and the joined fragments *)

Ltac io_unfold :=
  unfold IO.run_process, IO.bind, IO.process_cwd, IO.of_result, IO.console_log,
    IO.console_warn, IO.emit, IO.fs_exists, IO.fs_stat, IO.fs_readdir,
    IO.fs_readdir_withFileTypes, IO.bun_file_text, IO.bun_write, IO.ask, IO.update,
    IO.when, IO.throw, IO.ret.

Ltac io_reduce := cbv beta iota zeta; cbn [negb app isDirectory List.length Nat.eqb].

Section JoinFacts.

Lemma join_cons (x : string) (l : list string) :
  JS.join (x :: l) JS.LF = x ++ join_tail l.
Proof.
  unfold JS.join. revert x. induction l as [|y l IH]; intros x.
  - simpl. now rewrite append_nil_r.
  - change (String.concat JS.LF (x :: y :: l))
      with (x ++ JS.LF ++ String.concat JS.LF (y :: l)).
    now rewrite IH.
Qed.

Lemma title_eq : title = "# Combined Documentation" ++ JS.LF.
Proof. reflexivity. Qed.

End JoinFacts.

(** ** Runs of the allowlist script, case by case *)

Section AllowlistRuns.
Context {FS : Type} (P : Platform FS) (args : list string) (s : FS).
Local Open Scope list_scope.

Let fragments (l : list (string * string)) : list string :=
  flat_map (fun pc => [separator_of (fst pc); snd pc]) l.

Lemma allow_join_document (l : list (string * string)) :
  JS.join (title :: fragments l) JS.LF = Described.document l.
Proof.
  rewrite join_cons. unfold Described.document. rewrite title_eq, append_assoc.
  do 2 f_equal.
  induction l as [|[p c] l IH]; [reflexivity|].
  cbn [fragments flat_map app join_tail Described.blocks fst snd].
  fold (fragments l). rewrite IH. unfold Described.block, separator_of.
  now rewrite !append_assoc.
Qed.

Lemma allow_loop_app (sp : string) (before rest cb acc : list string) :
  allow_reads_ok P s sp before cb ->
  Allowlist.combine_loop P sp (before ++ rest) acc s =
    let '(r, s', t) :=
      Allowlist.combine_loop P sp rest (acc ++ fragments (combine before cb)) s in
    (r, s', allow_loop_events P sp before ++ t).
Proof.
  intros H. revert acc. induction H as [|p c before cb Hp Hrest IH]; intros acc.
  - cbn [app combine fragments flat_map allow_loop_events]. rewrite app_nil_r.
    now destruct (Allowlist.combine_loop P sp rest acc s) as [[r s'] t].
  - cbn [app Allowlist.combine_loop]. io_unfold. io_reduce. rewrite Hp.
    rewrite IH. cbn [combine fragments flat_map fst snd allow_loop_events].
    rewrite <- !app_assoc. cbn [app].
    now destruct (Allowlist.combine_loop P sp rest _ s) as [[r s'] t].
Qed.

Lemma allow_loop_ok (sp : string) (files contents acc : list string) :
  allow_reads_ok P s sp files contents ->
  Allowlist.combine_loop P sp files acc s =
    (Ok (acc ++ fragments (combine files contents)), s, allow_loop_events P sp files).
Proof.
  intros H. rewrite <- (app_nil_r files) at 1.
  rewrite (allow_loop_app sp files [] contents acc H).
  cbn [Allowlist.combine_loop]. unfold IO.ret. now rewrite app_nil_r.
Qed.

Lemma allow_loop_throws (sp : string) (before after cb acc : list string)
      (p : string) (e : thrown) :
  allow_reads_ok P s sp before cb ->
  text P s (join P sp p) = Throw e ->
  Allowlist.combine_loop P sp (before ++ p :: after) acc s =
    (Throw e, s, allow_loop_events P sp before ++ [combining p; FileText (join P sp p)]).
Proof.
  intros H Hp. rewrite (allow_loop_app sp before (p :: after) cb acc H).
  cbn [Allowlist.combine_loop]. io_unfold. io_reduce. now rewrite Hp.
Qed.

(** Either every candidate is read, or there is a first one whose read
    raises. *)
Lemma allow_reads_total (sp : string) (files : list string) :
  (exists contents, allow_reads_ok P s sp files contents) \/
  (exists before p after cb e,
      files = before ++ p :: after /\
      allow_reads_ok P s sp before cb /\
      text P s (join P sp p) = Throw e).
Proof.
  induction files as [|p files IH].
  - left. exists []. constructor.
  - destruct (text P s (join P sp p)) as [c|e] eqn:Hp.
    + destruct IH as [[contents H] | (before & q & after & cb & e & -> & H & Hq)].
      * left. exists (c :: contents). now constructor.
      * right. exists (p :: before), q, after, (c :: cb), e.
        repeat split; [now constructor | assumption].
    + right. exists [], p, files, [], e. repeat split; [constructor | assumption].
Qed.

Section Resolved.
Variable here : string.
Hypothesis Hcwd : cwd P = Ok here.

Let sp := sourcePath_of P here args.
Let op := outputPath_of P here args.

Lemma allow_run_source_missing :
  exists_ P s sp = false ->
  Allowlist.run P args s =
    {| exitCode := 1; store := s;
       events := [searching sp; FsExists sp; IO.report (not_found sp)] |}.
Proof.
  intros Hex. unfold sp, op, sourcePath_of, outputPath_of in *.
  unfold Allowlist.run, Allowlist.main. io_unfold.
  rewrite Hcwd. io_reduce. rewrite Hex. reflexivity.
Qed.

Lemma allow_run_stat_throws (e : thrown) :
  exists_ P s sp = true ->
  stat P s sp = Throw e ->
  Allowlist.run P args s =
    {| exitCode := 1; store := s;
       events := [searching sp; FsExists sp; FsStat sp; IO.report e] |}.
Proof.
  intros Hex Hst. unfold sp, op, sourcePath_of, outputPath_of in *.
  unfold Allowlist.run, Allowlist.main. io_unfold.
  rewrite Hcwd. io_reduce. rewrite Hex. io_reduce. rewrite Hst. reflexivity.
Qed.

Lemma allow_run_not_directory (st : Stats) :
  exists_ P s sp = true ->
  stat P s sp = Ok st ->
  isDirectory st = false ->
  Allowlist.run P args s =
    {| exitCode := 1; store := s;
       events := [searching sp; FsExists sp; FsStat sp; IO.report (not_a_directory sp)] |}.
Proof.
  intros Hex Hst Hdir. unfold sp, op, sourcePath_of, outputPath_of in *.
  unfold Allowlist.run, Allowlist.main. io_unfold.
  rewrite Hcwd. io_reduce. rewrite Hex. io_reduce. rewrite Hst. io_reduce.
  rewrite Hdir. reflexivity.
Qed.

Section Validated.
Variable st : Stats.
Hypothesis Hex : exists_ P s sp = true.
Hypothesis Hst : stat P s sp = Ok st.
Hypothesis Hdir : isDirectory st = true.

Lemma allow_run_readdir_throws (e : thrown) :
  readdir P s sp = Throw e ->
  Allowlist.run P args s =
    {| exitCode := 1; store := s;
       events := [searching sp; FsExists sp; FsStat sp; FsReaddir sp; IO.report e] |}.
Proof.
  intros Hrd. unfold sp, op, sourcePath_of, outputPath_of in *.
  unfold Allowlist.run, Allowlist.main. io_unfold.
  rewrite Hcwd. io_reduce. rewrite Hex. io_reduce. rewrite Hst. io_reduce.
  rewrite Hdir. io_reduce. rewrite Hrd. reflexivity.
Qed.

Section Listed.
Variable allFiles : list string.
Hypothesis Hrd : readdir P s sp = Ok allFiles.

Let files := Allowlist.markdownFiles_of allFiles.

Lemma allow_run_no_candidates :
  files = [] ->
  Allowlist.run P args s =
    {| exitCode := 0; store := s;
       events := [searching sp; FsExists sp; FsStat sp; FsReaddir sp; no_files sp] |}.
Proof.
  intros Hnil. unfold sp, op, sourcePath_of, outputPath_of in *.
  unfold Allowlist.run, Allowlist.main. io_unfold.
  rewrite Hcwd. io_reduce. rewrite Hex. io_reduce. rewrite Hst. io_reduce.
  rewrite Hdir. io_reduce. rewrite Hrd. io_reduce. unfold files in Hnil.
  rewrite Hnil. reflexivity.
Qed.

(** Up to the loop, a run with candidates is the loop, the write and
    the closing message after a fixed prefix of events. *)
Lemma allow_run_with_candidates :
  files <> [] ->
  Allowlist.run P args s =
    IO.run_process
      (fun s0 =>
         let '(r, s1, t) :=
           (combinedContent <- Allowlist.combine_loop P sp files [title] ;;
            IO.bun_write P op (JS.join combinedContent JS.LF) ;;
            IO.emit (success op)) s0 in
         (r, s1, [searching sp; FsExists sp; FsStat sp; FsReaddir sp;
                  found_files (List.length files)] ++ t)) s.
Proof.
  intros Hne. unfold sp, op, sourcePath_of, outputPath_of in *.
  unfold Allowlist.run, Allowlist.main. io_unfold.
  rewrite Hcwd. io_reduce. rewrite Hex. io_reduce. rewrite Hst. io_reduce.
  rewrite Hdir. io_reduce. rewrite Hrd. io_reduce. unfold files in *.
  destruct (Allowlist.markdownFiles_of allFiles) as [|f rest]; [contradiction|].
  io_reduce.
  destruct (Allowlist.combine_loop P _ (f :: rest) [title] s) as [[[c|e] s1] t1];
    [|reflexivity].
  destruct (write P s1 _ (JS.join c JS.LF)) as [s2|e2]; reflexivity.
Qed.

Lemma allow_run_read_throws (before after cb : list string) (p : string) (e : thrown) :
  files = before ++ p :: after ->
  allow_reads_ok P s sp before cb ->
  text P s (join P sp p) = Throw e ->
  Allowlist.run P args s =
    {| exitCode := 1; store := s;
       events := [searching sp; FsExists sp; FsStat sp; FsReaddir sp;
                  found_files (List.length files)]
                 ++ allow_loop_events P sp before
                 ++ [combining p; FileText (join P sp p); IO.report e] |}.
Proof.
  intros Hf Hok Hp. rewrite allow_run_with_candidates.
  2:{ rewrite Hf. now destruct before. }
  unfold IO.run_process, IO.bind. rewrite Hf at 1.
  rewrite (allow_loop_throws sp before after cb [title] p e Hok Hp).
  cbn [app]. rewrite <- ?app_assoc. reflexivity.
Qed.

Section AllRead.
Variable contents : list string.
Hypothesis Hne : files <> [].
Hypothesis Hok : allow_reads_ok P s sp files contents.

Let doc := Described.document (allow_blocks files contents).

Lemma allow_run_write_throws (e : thrown) :
  write P s op doc = Throw e ->
  Allowlist.run P args s =
    {| exitCode := 1; store := s;
       events := [searching sp; FsExists sp; FsStat sp; FsReaddir sp;
                  found_files (List.length files)]
                 ++ allow_loop_events P sp files
                 ++ [BunWrite op doc; IO.report e] |}.
Proof.
  intros Hw. rewrite (allow_run_with_candidates Hne).
  unfold IO.run_process, IO.bind.
  rewrite (allow_loop_ok sp files contents [title] Hok).
  change ([title] ++ fragments (combine files contents))
    with (title :: fragments (combine files contents)).
  rewrite allow_join_document. fold (allow_blocks files contents). fold doc.
  unfold IO.bun_write, IO.update. rewrite Hw.
  cbn [app]. rewrite <- ?app_assoc. reflexivity.
Qed.

Lemma allow_run_success (s' : FS) :
  write P s op doc = Ok s' ->
  Allowlist.run P args s =
    {| exitCode := 0; store := s';
       events := [searching sp; FsExists sp; FsStat sp; FsReaddir sp;
                  found_files (List.length files)]
                 ++ allow_loop_events P sp files
                 ++ [BunWrite op doc; success op] |}.
Proof.
  intros Hw. rewrite (allow_run_with_candidates Hne).
  unfold IO.run_process, IO.bind.
  rewrite (allow_loop_ok sp files contents [title] Hok).
  change ([title] ++ fragments (combine files contents))
    with (title :: fragments (combine files contents)).
  rewrite allow_join_document. fold (allow_blocks files contents). fold doc.
  unfold IO.bun_write, IO.update. rewrite Hw.
  unfold IO.console_log, IO.emit.
  cbn [app]. rewrite <- ?app_assoc. reflexivity.
Qed.
End AllRead.
End Listed.
End Validated.
End Resolved.

Lemma allow_run_cwd_throws (e : thrown) :
  cwd P = Throw e ->
  Allowlist.run P args s = {| exitCode := 1; store := s; events := [IO.report e] |}.
Proof.
  intros Hcwd. unfold Allowlist.run, Allowlist.main. io_unfold. now rewrite Hcwd.
Qed.

End AllowlistRuns.

(** ** Runs of the denylist script, case by case *)

Section DenylistRuns.
Context {FS : Type} (P : Platform FS) (args : list string) (s : FS).
Local Open Scope list_scope.

Let fragments (l : list (Dirent * string)) : list string :=
  flat_map (fun fc => [separator_of (deny_fullPath P (fst fc)); deny_body (fst fc) (snd fc)]) l.

Let labelled (l : list (Dirent * string)) : list (string * string) :=
  map (fun fc => (deny_fullPath P (fst fc), deny_body (fst fc) (snd fc))) l.

Lemma deny_join_document (l : list (Dirent * string)) :
  JS.join (title :: fragments l) JS.LF = Described.document (labelled l).
Proof.
  rewrite join_cons. unfold Described.document. rewrite title_eq, append_assoc.
  do 2 f_equal.
  induction l as [|[p c] l IH]; [reflexivity|].
  cbn [fragments labelled map flat_map app join_tail Described.blocks fst snd].
  fold (labelled l).
  fold (fragments l). rewrite IH. unfold Described.block, separator_of.
  now rewrite !append_assoc.
Qed.

Lemma deny_loop_app (before rest : list Dirent) (cb acc : list string) :
  deny_reads_ok P s before cb ->
  Denylist.combine_loop P (before ++ rest) acc s =
    let '(r, s', t) :=
      Denylist.combine_loop P rest (acc ++ fragments (combine before cb)) s in
    (r, s', deny_loop_events P before ++ t).
Proof.
  intros H. revert acc. induction H as [|p c before cb Hp Hrest IH]; intros acc.
  - cbn [app combine fragments flat_map deny_loop_events]. rewrite app_nil_r.
    now destruct (Denylist.combine_loop P rest acc s) as [[r s'] t].
  - cbn [app Denylist.combine_loop]. io_unfold. io_reduce.
    fold (deny_fullPath P p). rewrite Hp.
    cbn [combine fragments flat_map fst snd deny_loop_events]. unfold deny_body.
    change Described.fenced with Denylist.fence.
    destruct (JS.endsWith (name p) ".md"); io_reduce; rewrite IH;
      rewrite <- !app_assoc; cbn [app];
      now destruct (Denylist.combine_loop P rest _ s) as [[r s'] t].
Qed.

Lemma deny_loop_ok (files : list Dirent) (contents acc : list string) :
  deny_reads_ok P s files contents ->
  Denylist.combine_loop P files acc s =
    (Ok (acc ++ fragments (combine files contents)), s, deny_loop_events P files).
Proof.
  intros H. rewrite <- (app_nil_r files) at 1.
  rewrite (deny_loop_app files [] contents acc H).
  cbn [Denylist.combine_loop]. unfold IO.ret. now rewrite app_nil_r.
Qed.

Lemma deny_loop_throws (before after : list Dirent) (cb acc : list string)
      (p : Dirent) (e : thrown) :
  deny_reads_ok P s before cb ->
  text P s (deny_fullPath P p) = Throw e ->
  Denylist.combine_loop P (before ++ p :: after) acc s =
    (Throw e, s, deny_loop_events P before ++ [combining (deny_fullPath P p); FileText (deny_fullPath P p)]).
Proof.
  intros H Hp. rewrite (deny_loop_app before (p :: after) cb acc H).
  cbn [Denylist.combine_loop]. io_unfold. io_reduce.
  fold (deny_fullPath P p). now rewrite Hp.
Qed.

(** Either every candidate is read, or there is a first one whose read
    raises. *)
Lemma deny_reads_total (files : list Dirent) :
  (exists contents, deny_reads_ok P s files contents) \/
  (exists before p after cb e,
      files = before ++ p :: after /\
      deny_reads_ok P s before cb /\
      text P s (deny_fullPath P p) = Throw e).
Proof.
  induction files as [|p files IH].
  - left. exists []. constructor.
  - destruct (text P s (deny_fullPath P p)) as [c|e] eqn:Hp.
    + destruct IH as [[contents H] | (before & q & after & cb & e & -> & H & Hq)].
      * left. exists (c :: contents). now constructor.
      * right. exists (p :: before), q, after, (c :: cb), e.
        repeat split; [now constructor | assumption].
    + right. exists [], p, files, [], e. repeat split; [constructor | assumption].
Qed.

Section Resolved.
Variable here : string.
Hypothesis Hcwd : cwd P = Ok here.

Let sp := sourcePath_of P here args.
Let op := outputPath_of P here args.

Lemma deny_run_source_missing :
  exists_ P s sp = false ->
  Denylist.run P args s =
    {| exitCode := 1; store := s;
       events := [searching sp; FsExists sp; IO.report (not_found sp)] |}.
Proof.
  intros Hex. unfold sp, op, sourcePath_of, outputPath_of in *.
  unfold Denylist.run, Denylist.main. io_unfold.
  rewrite Hcwd. io_reduce. rewrite Hex. reflexivity.
Qed.

Lemma deny_run_stat_throws (e : thrown) :
  exists_ P s sp = true ->
  stat P s sp = Throw e ->
  Denylist.run P args s =
    {| exitCode := 1; store := s;
       events := [searching sp; FsExists sp; FsStat sp; IO.report e] |}.
Proof.
  intros Hex Hst. unfold sp, op, sourcePath_of, outputPath_of in *.
  unfold Denylist.run, Denylist.main. io_unfold.
  rewrite Hcwd. io_reduce. rewrite Hex. io_reduce. rewrite Hst. reflexivity.
Qed.

Lemma deny_run_not_directory (st : Stats) :
  exists_ P s sp = true ->
  stat P s sp = Ok st ->
  isDirectory st = false ->
  Denylist.run P args s =
    {| exitCode := 1; store := s;
       events := [searching sp; FsExists sp; FsStat sp; IO.report (not_a_directory sp)] |}.
Proof.
  intros Hex Hst Hdir. unfold sp, op, sourcePath_of, outputPath_of in *.
  unfold Denylist.run, Denylist.main. io_unfold.
  rewrite Hcwd. io_reduce. rewrite Hex. io_reduce. rewrite Hst. io_reduce.
  rewrite Hdir. reflexivity.
Qed.

Section Validated.
Variable st : Stats.
Hypothesis Hex : exists_ P s sp = true.
Hypothesis Hst : stat P s sp = Ok st.
Hypothesis Hdir : isDirectory st = true.

Lemma deny_run_readdir_throws (e : thrown) :
  readdirWithFileTypes P s sp = Throw e ->
  Denylist.run P args s =
    {| exitCode := 1; store := s;
       events := [searching sp; FsExists sp; FsStat sp; FsReaddir sp; IO.report e] |}.
Proof.
  intros Hrd. unfold sp, op, sourcePath_of, outputPath_of in *.
  unfold Denylist.run, Denylist.main. io_unfold.
  rewrite Hcwd. io_reduce. rewrite Hex. io_reduce. rewrite Hst. io_reduce.
  rewrite Hdir. io_reduce. rewrite Hrd. reflexivity.
Qed.

Section Listed.
Variable allFiles : list Dirent.
Hypothesis Hrd : readdirWithFileTypes P s sp = Ok allFiles.

Let files := Denylist.files_of allFiles.

Lemma deny_run_no_candidates :
  files = [] ->
  Denylist.run P args s =
    {| exitCode := 0; store := s;
       events := [searching sp; FsExists sp; FsStat sp; FsReaddir sp; no_files sp] |}.
Proof.
  intros Hnil. unfold sp, op, sourcePath_of, outputPath_of in *.
  unfold Denylist.run, Denylist.main. io_unfold.
  rewrite Hcwd. io_reduce. rewrite Hex. io_reduce. rewrite Hst. io_reduce.
  rewrite Hdir. io_reduce. rewrite Hrd. io_reduce. unfold files in Hnil.
  rewrite Hnil. reflexivity.
Qed.

(** Up to the loop, a run with candidates is the loop, the write and
    the closing message after a fixed prefix of events. *)
Lemma deny_run_with_candidates :
  files <> [] ->
  Denylist.run P args s =
    IO.run_process
      (fun s0 =>
         let '(r, s1, t) :=
           (combinedContent <- Denylist.combine_loop P files [title] ;;
            IO.bun_write P op (JS.join combinedContent JS.LF) ;;
            IO.emit (success op)) s0 in
         (r, s1, [searching sp; FsExists sp; FsStat sp; FsReaddir sp;
                  found_files (List.length files)] ++ t)) s.
Proof.
  intros Hne. unfold sp, op, sourcePath_of, outputPath_of in *.
  unfold Denylist.run, Denylist.main. io_unfold.
  rewrite Hcwd. io_reduce. rewrite Hex. io_reduce. rewrite Hst. io_reduce.
  rewrite Hdir. io_reduce. rewrite Hrd. io_reduce. unfold files in *.
  destruct (Denylist.files_of allFiles) as [|f rest]; [contradiction|].
  io_reduce.
  destruct (Denylist.combine_loop P (f :: rest) [title] s) as [[[c|e] s1] t1];
    [|reflexivity].
  destruct (write P s1 _ (JS.join c JS.LF)) as [s2|e2]; reflexivity.
Qed.

Lemma deny_run_read_throws (before after : list Dirent) (cb : list string) (p : Dirent) (e : thrown) :
  files = before ++ p :: after ->
  deny_reads_ok P s before cb ->
  text P s (deny_fullPath P p) = Throw e ->
  Denylist.run P args s =
    {| exitCode := 1; store := s;
       events := [searching sp; FsExists sp; FsStat sp; FsReaddir sp;
                  found_files (List.length files)]
                 ++ deny_loop_events P before
                 ++ [combining (deny_fullPath P p); FileText (deny_fullPath P p); IO.report e] |}.
Proof.
  intros Hf Hok Hp. rewrite deny_run_with_candidates.
  2:{ rewrite Hf. now destruct before. }
  unfold IO.run_process, IO.bind. rewrite Hf at 1.
  rewrite (deny_loop_throws before after cb [title] p e Hok Hp).
  cbn [app]. rewrite <- ?app_assoc. reflexivity.
Qed.

Section AllRead.
Variable contents : list string.
Hypothesis Hne : files <> [].
Hypothesis Hok : deny_reads_ok P s files contents.

Let doc := Described.document (deny_blocks P files contents).

Lemma deny_run_write_throws (e : thrown) :
  write P s op doc = Throw e ->
  Denylist.run P args s =
    {| exitCode := 1; store := s;
       events := [searching sp; FsExists sp; FsStat sp; FsReaddir sp;
                  found_files (List.length files)]
                 ++ deny_loop_events P files
                 ++ [BunWrite op doc; IO.report e] |}.
Proof.
  intros Hw. rewrite (deny_run_with_candidates Hne).
  unfold IO.run_process, IO.bind.
  rewrite (deny_loop_ok files contents [title] Hok).
  change ([title] ++ fragments (combine files contents))
    with (title :: fragments (combine files contents)).
  rewrite deny_join_document.
  change (labelled (combine files contents)) with (deny_blocks P files contents).
  fold doc.
  unfold IO.bun_write, IO.update. rewrite Hw.
  cbn [app]. rewrite <- ?app_assoc. reflexivity.
Qed.

Lemma deny_run_success (s' : FS) :
  write P s op doc = Ok s' ->
  Denylist.run P args s =
    {| exitCode := 0; store := s';
       events := [searching sp; FsExists sp; FsStat sp; FsReaddir sp;
                  found_files (List.length files)]
                 ++ deny_loop_events P files
                 ++ [BunWrite op doc; success op] |}.
Proof.
  intros Hw. rewrite (deny_run_with_candidates Hne).
  unfold IO.run_process, IO.bind.
  rewrite (deny_loop_ok files contents [title] Hok).
  change ([title] ++ fragments (combine files contents))
    with (title :: fragments (combine files contents)).
  rewrite deny_join_document.
  change (labelled (combine files contents)) with (deny_blocks P files contents).
  fold doc.
  unfold IO.bun_write, IO.update. rewrite Hw.
  unfold IO.console_log, IO.emit.
  cbn [app]. rewrite <- ?app_assoc. reflexivity.
Qed.
End AllRead.
End Listed.
End Validated.
End Resolved.

Lemma deny_run_cwd_throws (e : thrown) :
  cwd P = Throw e ->
  Denylist.run P args s = {| exitCode := 1; store := s; events := [IO.report e] |}.
Proof.
  intros Hcwd. unfold Denylist.run, Denylist.main. io_unfold. now rewrite Hcwd.
Qed.

End DenylistRuns.

(** ** The default sort *)

Section SortFacts.
Context {A : Type} (toString : A -> string).

Lemma string_compare_refl (x : string) : (x ?= x)%string = Eq.
Proof.
  induction x as [|c x IH]; [reflexivity|].
  cbn [String.compare]. replace (Ascii.compare c c) with Eq; [exact IH|].
  symmetry. unfold Ascii.compare. apply N.compare_refl.
Qed.

Lemma string_ltb_irrefl (x : string) : (x <? x)%string = false.
Proof. unfold String.ltb. now rewrite string_compare_refl. Qed.

Lemma insert_perm (x : A) (l : list A) : Permutation (JS.insert toString x l) (x :: l).
Proof.
  induction l as [|y l IH]; cbn [JS.insert]; [reflexivity|].
  destruct (toString y <? toString x)%string; [|reflexivity].
  rewrite IH. apply perm_swap.
Qed.

Lemma sort_perm (l : list A) : Permutation (JS.sort toString l) l.
Proof.
  induction l as [|x l IH]; [reflexivity|].
  cbn [JS.sort fold_right]. fold (JS.sort toString l).
  rewrite insert_perm. now constructor.
Qed.

Lemma sort_In (x : A) (l : list A) : In x (JS.sort toString l) <-> In x l.
Proof.
  split; apply Permutation_in; [apply sort_perm | symmetry; apply sort_perm].
Qed.

(** Elements whose string conversions all coincide are left where they
    are. *)
Lemma sort_same_key (l : list A) :
  (forall x y, toString x = toString y) -> JS.sort toString l = l.
Proof.
  intros Hkey. induction l as [|x l IH]; [reflexivity|].
  cbn [JS.sort fold_right]. fold (JS.sort toString l). rewrite IH.
  destruct l as [|y l']; [reflexivity|].
  cbn [JS.insert]. rewrite (Hkey y x). now rewrite string_ltb_irrefl.
Qed.

Lemma not_ltb_leb (a b : string) : (b <? a)%string = false -> (a <=? b)%string = true.
Proof.
  unfold String.ltb, String.leb. rewrite (String.compare_antisym a b).
  now destruct (b ?= a)%string.
Qed.

Lemma ltb_leb (a b : string) : (a <? b)%string = true -> (a <=? b)%string = true.
Proof.
  unfold String.ltb, String.leb. now destruct (a ?= b)%string.
Qed.

Lemma insert_sorted (x : A) (l : list A) :
  Sorted (JS.in_order toString) l -> Sorted (JS.in_order toString) (JS.insert toString x l).
Proof.
  induction 1 as [|y l Hl IH Hy]; cbn [JS.insert].
  - repeat constructor.
  - destruct (toString y <? toString x)%string eqn:Hlt.
    + constructor; [exact IH|].
      destruct Hy as [|z l Hyz]; cbn [JS.insert].
      * constructor. now apply ltb_leb.
      * destruct (toString z <? toString x)%string; constructor;
          [exact Hyz | now apply ltb_leb].
    + constructor; [now constructor|].
      constructor. now apply not_ltb_leb.
Qed.

Lemma sort_sorted (l : list A) : Sorted (JS.in_order toString) (JS.sort toString l).
Proof.
  induction l as [|x l IH]; [constructor|].
  cbn [JS.sort fold_right]. now apply insert_sorted.
Qed.

End SortFacts.

(** The allowlist script's candidates are the markdown paths of the listing,
    in ascending code-unit order. *)
Lemma allow_candidates_sorted (allFiles : list string) :
  Sorted (fun a b => (a <=? b)%string = true) (Allowlist.markdownFiles_of allFiles) /\
  Permutation (Allowlist.markdownFiles_of allFiles) (filter Allowlist.isMarkdown allFiles).
Proof.
  split; [apply (sort_sorted (fun s => s)) | apply sort_perm].
Qed.

(** The denylist script's [sort()] compares directory entries, whose string
    conversions are all the same: the candidates stay in listing order. *)
Lemma deny_candidates_in_listing_order (allFiles : list Dirent) :
  Denylist.files_of allFiles = filter Denylist.keep allFiles.
Proof.
  unfold Denylist.files_of. now apply sort_same_key.
Qed.

(** ** Write calls and read calls of a trace *)

Section TraceFacts.
Context {FS : Type} (P : Platform FS).
Local Open Scope list_scope.

Lemma writes_app (t1 t2 : list Event) :
  Described.writes (t1 ++ t2) = Described.writes t1 ++ Described.writes t2.
Proof. apply flat_map_app. Qed.

Lemma reads_app (t1 t2 : list Event) :
  Described.reads (t1 ++ t2) = Described.reads t1 ++ Described.reads t2.
Proof. apply flat_map_app. Qed.

Lemma cwd_unique (h1 h2 : string) : cwd P = Ok h1 -> cwd P = Ok h2 -> h1 = h2.
Proof. intros H1 H2. rewrite H1 in H2. now injection H2. Qed.

Lemma listings_app (t1 t2 : list Event) :
  Described.listings (t1 ++ t2) = Described.listings t1 ++ Described.listings t2.
Proof. apply flat_map_app. Qed.

Lemma allow_loop_listings (sp : string) (files : list string) :
  Described.listings (allow_loop_events P sp files) = [].
Proof. induction files as [|p files IH]; [reflexivity | exact IH]. Qed.

Lemma deny_loop_listings (files : list Dirent) :
  Described.listings (deny_loop_events P files) = [].
Proof. induction files as [|p files IH]; [reflexivity | exact IH]. Qed.

Lemma allow_loop_writes (sp : string) (files : list string) :
  Described.writes (allow_loop_events P sp files) = [].
Proof. induction files as [|p files IH]; [reflexivity | exact IH]. Qed.

Lemma deny_loop_writes (files : list Dirent) :
  Described.writes (deny_loop_events P files) = [].
Proof. induction files as [|p files IH]; [reflexivity | exact IH]. Qed.

Lemma allow_loop_reads (sp : string) (files : list string) :
  Described.reads (allow_loop_events P sp files) = map (join P sp) files.
Proof.
  induction files as [|p files IH]; [reflexivity|].
  change (Described.reads (allow_loop_events P sp (p :: files)))
    with (join P sp p :: Described.reads (allow_loop_events P sp files)).
  now rewrite IH.
Qed.

Lemma deny_loop_reads (files : list Dirent) :
  Described.reads (deny_loop_events P files) = map (deny_fullPath P) files.
Proof.
  induction files as [|p files IH]; [reflexivity|].
  change (Described.reads (deny_loop_events P (p :: files)))
    with (deny_fullPath P p :: Described.reads (deny_loop_events P files)).
  now rewrite IH.
Qed.

End TraceFacts.

(** ** Every run has one of nine shapes *)

Section AllowlistCases.
Context {FS : Type} (P : Platform FS) (args : list string) (s : FS).
Local Open Scope list_scope.

Let failed (t : list Event) : Outcome FS := {| exitCode := 1; store := s; events := t |}.
Let files_of := Allowlist.markdownFiles_of.
Let head (sp : string) (n : nat) : list Event :=
  [searching sp; FsExists sp; FsStat sp; FsReaddir sp; found_files n].

Lemma allow_run_cases (Q : Outcome FS -> Prop) :
  (forall e, cwd P = Throw e -> Q (failed [IO.report e])) ->
  (forall here, cwd P = Ok here ->
     let sp := sourcePath_of P here args in
     exists_ P s sp = false ->
     Q (failed [searching sp; FsExists sp; IO.report (not_found sp)])) ->
  (forall here e, cwd P = Ok here ->
     let sp := sourcePath_of P here args in
     exists_ P s sp = true -> stat P s sp = Throw e ->
     Q (failed [searching sp; FsExists sp; FsStat sp; IO.report e])) ->
  (forall here st, cwd P = Ok here ->
     let sp := sourcePath_of P here args in
     exists_ P s sp = true -> stat P s sp = Ok st -> isDirectory st = false ->
     Q (failed [searching sp; FsExists sp; FsStat sp; IO.report (not_a_directory sp)])) ->
  (forall here st e, cwd P = Ok here ->
     let sp := sourcePath_of P here args in
     exists_ P s sp = true -> stat P s sp = Ok st -> isDirectory st = true ->
     readdir P s sp = Throw e ->
     Q (failed [searching sp; FsExists sp; FsStat sp; FsReaddir sp; IO.report e])) ->
  (forall here st allFiles, cwd P = Ok here ->
     let sp := sourcePath_of P here args in
     exists_ P s sp = true -> stat P s sp = Ok st -> isDirectory st = true ->
     readdir P s sp = Ok allFiles -> files_of allFiles = [] ->
     Q {| exitCode := 0; store := s;
          events := [searching sp; FsExists sp; FsStat sp; FsReaddir sp; no_files sp] |}) ->
  (forall here st allFiles before p after cb e, cwd P = Ok here ->
     let sp := sourcePath_of P here args in
     exists_ P s sp = true -> stat P s sp = Ok st -> isDirectory st = true ->
     readdir P s sp = Ok allFiles -> files_of allFiles = before ++ p :: after ->
     allow_reads_ok P s sp before cb -> text P s (join P sp p) = Throw e ->
     Q (failed (head sp (List.length (files_of allFiles)) ++ allow_loop_events P sp before
                ++ [combining p; FileText (join P sp p); IO.report e]))) ->
  (forall here st allFiles contents e, cwd P = Ok here ->
     let sp := sourcePath_of P here args in
     let op := outputPath_of P here args in
     let doc := Described.document (allow_blocks (files_of allFiles) contents) in
     exists_ P s sp = true -> stat P s sp = Ok st -> isDirectory st = true ->
     readdir P s sp = Ok allFiles -> files_of allFiles <> [] ->
     allow_reads_ok P s sp (files_of allFiles) contents -> write P s op doc = Throw e ->
     Q (failed (head sp (List.length (files_of allFiles))
                ++ allow_loop_events P sp (files_of allFiles)
                ++ [BunWrite op doc; IO.report e]))) ->
  (forall here st allFiles contents s', cwd P = Ok here ->
     let sp := sourcePath_of P here args in
     let op := outputPath_of P here args in
     let doc := Described.document (allow_blocks (files_of allFiles) contents) in
     exists_ P s sp = true -> stat P s sp = Ok st -> isDirectory st = true ->
     readdir P s sp = Ok allFiles -> files_of allFiles <> [] ->
     allow_reads_ok P s sp (files_of allFiles) contents -> write P s op doc = Ok s' ->
     Q {| exitCode := 0; store := s';
          events := head sp (List.length (files_of allFiles))
                    ++ allow_loop_events P sp (files_of allFiles)
                    ++ [BunWrite op doc; success op] |}) ->
  Q (Allowlist.run P args s).
Proof.
  intros Ccwd Cmissing Cstat Cnotdir Creaddir Cnone Cread Cwrite Cok.
  destruct (cwd P) as [here|e] eqn:Hcwd.
  2:{ rewrite (allow_run_cwd_throws P args s e Hcwd). now apply Ccwd. }
  destruct (exists_ P s (sourcePath_of P here args)) eqn:Hex.
  2:{ rewrite (allow_run_source_missing P args s here Hcwd Hex). now apply Cmissing. }
  destruct (stat P s (sourcePath_of P here args)) as [st|e] eqn:Hst.
  2:{ rewrite (allow_run_stat_throws P args s here Hcwd e Hex Hst). now apply Cstat. }
  destruct (isDirectory st) eqn:Hdir.
  2:{ rewrite (allow_run_not_directory P args s here Hcwd st Hex Hst Hdir).
      now apply (Cnotdir here st). }
  destruct (readdir P s (sourcePath_of P here args)) as [allFiles|e] eqn:Hrd.
  2:{ rewrite (allow_run_readdir_throws P args s here Hcwd st Hex Hst Hdir e Hrd).
      now apply (Creaddir here st). }
  destruct (Allowlist.markdownFiles_of allFiles) as [|f rest] eqn:Hfiles.
  { rewrite (allow_run_no_candidates P args s here Hcwd st Hex Hst Hdir allFiles Hrd Hfiles).
    now apply (Cnone here st allFiles). }
  assert (Hne : Allowlist.markdownFiles_of allFiles <> []) by now rewrite Hfiles.
  destruct (allow_reads_total P s (sourcePath_of P here args)
              (Allowlist.markdownFiles_of allFiles))
    as [[contents Hok] | (before & p & after & cb & e & Hsplit & Hok & Hp)].
  - destruct (write P s (outputPath_of P here args)
                (Described.document
                   (allow_blocks (Allowlist.markdownFiles_of allFiles) contents)))
      as [s'|e] eqn:Hw.
    + rewrite (allow_run_success P args s here Hcwd st Hex Hst Hdir allFiles Hrd
                 contents Hne Hok s' Hw).
      now apply (Cok here st allFiles contents s').
    + rewrite (allow_run_write_throws P args s here Hcwd st Hex Hst Hdir allFiles Hrd
                 contents Hne Hok e Hw).
      now apply (Cwrite here st allFiles contents e).
  - rewrite (allow_run_read_throws P args s here Hcwd st Hex Hst Hdir allFiles Hrd
               before after cb p e Hsplit Hok Hp).
    now apply (Cread here st allFiles before p after cb e).
Qed.

End AllowlistCases.

Section DenylistCases.
Context {FS : Type} (P : Platform FS) (args : list string) (s : FS).
Local Open Scope list_scope.

Let failed (t : list Event) : Outcome FS := {| exitCode := 1; store := s; events := t |}.
Let files_of := Denylist.files_of.
Let head (sp : string) (n : nat) : list Event :=
  [searching sp; FsExists sp; FsStat sp; FsReaddir sp; found_files n].

Lemma deny_run_cases (Q : Outcome FS -> Prop) :
  (forall e, cwd P = Throw e -> Q (failed [IO.report e])) ->
  (forall here, cwd P = Ok here ->
     let sp := sourcePath_of P here args in
     exists_ P s sp = false ->
     Q (failed [searching sp; FsExists sp; IO.report (not_found sp)])) ->
  (forall here e, cwd P = Ok here ->
     let sp := sourcePath_of P here args in
     exists_ P s sp = true -> stat P s sp = Throw e ->
     Q (failed [searching sp; FsExists sp; FsStat sp; IO.report e])) ->
  (forall here st, cwd P = Ok here ->
     let sp := sourcePath_of P here args in
     exists_ P s sp = true -> stat P s sp = Ok st -> isDirectory st = false ->
     Q (failed [searching sp; FsExists sp; FsStat sp; IO.report (not_a_directory sp)])) ->
  (forall here st e, cwd P = Ok here ->
     let sp := sourcePath_of P here args in
     exists_ P s sp = true -> stat P s sp = Ok st -> isDirectory st = true ->
     readdirWithFileTypes P s sp = Throw e ->
     Q (failed [searching sp; FsExists sp; FsStat sp; FsReaddir sp; IO.report e])) ->
  (forall here st allFiles, cwd P = Ok here ->
     let sp := sourcePath_of P here args in
     exists_ P s sp = true -> stat P s sp = Ok st -> isDirectory st = true ->
     readdirWithFileTypes P s sp = Ok allFiles -> files_of allFiles = [] ->
     Q {| exitCode := 0; store := s;
          events := [searching sp; FsExists sp; FsStat sp; FsReaddir sp; no_files sp] |}) ->
  (forall here st allFiles before p after cb e, cwd P = Ok here ->
     let sp := sourcePath_of P here args in
     exists_ P s sp = true -> stat P s sp = Ok st -> isDirectory st = true ->
     readdirWithFileTypes P s sp = Ok allFiles -> files_of allFiles = before ++ p :: after ->
     deny_reads_ok P s before cb -> text P s (deny_fullPath P p) = Throw e ->
     Q (failed (head sp (List.length (files_of allFiles)) ++ deny_loop_events P before
                ++ [combining (deny_fullPath P p); FileText (deny_fullPath P p); IO.report e]))) ->
  (forall here st allFiles contents e, cwd P = Ok here ->
     let sp := sourcePath_of P here args in
     let op := outputPath_of P here args in
     let doc := Described.document (deny_blocks P (files_of allFiles) contents) in
     exists_ P s sp = true -> stat P s sp = Ok st -> isDirectory st = true ->
     readdirWithFileTypes P s sp = Ok allFiles -> files_of allFiles <> [] ->
     deny_reads_ok P s (files_of allFiles) contents -> write P s op doc = Throw e ->
     Q (failed (head sp (List.length (files_of allFiles))
                ++ deny_loop_events P (files_of allFiles)
                ++ [BunWrite op doc; IO.report e]))) ->
  (forall here st allFiles contents s', cwd P = Ok here ->
     let sp := sourcePath_of P here args in
     let op := outputPath_of P here args in
     let doc := Described.document (deny_blocks P (files_of allFiles) contents) in
     exists_ P s sp = true -> stat P s sp = Ok st -> isDirectory st = true ->
     readdirWithFileTypes P s sp = Ok allFiles -> files_of allFiles <> [] ->
     deny_reads_ok P s (files_of allFiles) contents -> write P s op doc = Ok s' ->
     Q {| exitCode := 0; store := s';
          events := head sp (List.length (files_of allFiles))
                    ++ deny_loop_events P (files_of allFiles)
                    ++ [BunWrite op doc; success op] |}) ->
  Q (Denylist.run P args s).
Proof.
  intros Ccwd Cmissing Cstat Cnotdir Creaddir Cnone Cread Cwrite Cok.
  destruct (cwd P) as [here|e] eqn:Hcwd.
  2:{ rewrite (deny_run_cwd_throws P args s e Hcwd). now apply Ccwd. }
  destruct (exists_ P s (sourcePath_of P here args)) eqn:Hex.
  2:{ rewrite (deny_run_source_missing P args s here Hcwd Hex). now apply Cmissing. }
  destruct (stat P s (sourcePath_of P here args)) as [st|e] eqn:Hst.
  2:{ rewrite (deny_run_stat_throws P args s here Hcwd e Hex Hst). now apply Cstat. }
  destruct (isDirectory st) eqn:Hdir.
  2:{ rewrite (deny_run_not_directory P args s here Hcwd st Hex Hst Hdir).
      now apply (Cnotdir here st). }
  destruct (readdirWithFileTypes P s (sourcePath_of P here args)) as [allFiles|e] eqn:Hrd.
  2:{ rewrite (deny_run_readdir_throws P args s here Hcwd st Hex Hst Hdir e Hrd).
      now apply (Creaddir here st). }
  destruct (Denylist.files_of allFiles) as [|f rest] eqn:Hfiles.
  { rewrite (deny_run_no_candidates P args s here Hcwd st Hex Hst Hdir allFiles Hrd Hfiles).
    now apply (Cnone here st allFiles). }
  assert (Hne : Denylist.files_of allFiles <> []) by now rewrite Hfiles.
  destruct (deny_reads_total P s (Denylist.files_of allFiles))
    as [[contents Hok] | (before & p & after & cb & e & Hsplit & Hok & Hp)].
  - destruct (write P s (outputPath_of P here args)
                (Described.document
                   (deny_blocks P (Denylist.files_of allFiles) contents)))
      as [s'|e] eqn:Hw.
    + rewrite (deny_run_success P args s here Hcwd st Hex Hst Hdir allFiles Hrd
                 contents Hne Hok s' Hw).
      now apply (Cok here st allFiles contents s').
    + rewrite (deny_run_write_throws P args s here Hcwd st Hex Hst Hdir allFiles Hrd
                 contents Hne Hok e Hw).
      now apply (Cwrite here st allFiles contents e).
  - rewrite (deny_run_read_throws P args s here Hcwd st Hex Hst Hdir allFiles Hrd
               before after cb p e Hsplit Hok Hp).
    now apply (Cread here st allFiles before p after cb e).
Qed.

End DenylistCases.

(** * The claims *)

(** ** Source validation *)

(** The directory listing is only ever asked for a source that the
    existence test and the status call have accepted. *)
Section ListingFacts.
Context {FS : Type} (P : Platform FS) (args : list string) (s : FS).
Local Open Scope list_scope.

Let validated (p : string) : Prop :=
  exists here st,
    cwd P = Ok here /\ p = sourcePath_of P here args /\
    exists_ P s p = true /\ stat P s p = Ok st /\ isDirectory st = true.

Ltac listing_case :=
  intros;
  repeat match goal with x := _ |- _ => subst x end;
  repeat match goal with H : context [IO.report ?e] |- _ => is_var e; destruct e end;
  match goal with
  | H : In _ (Described.listings _) |- _ =>
      cbn [events] in H;
      rewrite ?listings_app, ?allow_loop_listings, ?deny_loop_listings in H;
      cbn [Described.listings flat_map app IO.report searching found_files no_files
           combining success not_found not_a_directory In] in H;
      try contradiction
  end;
  match goal with
  | H : _ \/ False |- _ => destruct H as [<- | []]
  end;
  cbv beta; do 2 eexists;
  (split; [eassumption | split; [reflexivity | repeat split; eassumption]]).

Lemma allow_listing_validated (p : string) :
  In p (Described.listings (events (Allowlist.run P args s))) -> validated p.
Proof. pattern (Allowlist.run P args s). apply allow_run_cases; listing_case. Qed.

Lemma deny_listing_validated (p : string) :
  In p (Described.listings (events (Denylist.run P args s))) -> validated p.
Proof. pattern (Denylist.run P args s). apply deny_run_cases; listing_case. Qed.

End ListingFacts.

(** C5.  Once the source path is resolved, both scripts ask whether it
    exists, and only then for its status, before any directory listing: a
    listing call in the trace is a call on the source path, and that path
    passed the existence test and the status call as a directory.  A path
    that does not exist ends the run after the existence test with the
    report "Source directory not found: <path>"; a path that exists and is
    not a directory ends it after the status call with the report "Source
    path is not a directory: <path>".  The two reports differ, the exit code
    is 1, the store is the initial one and the trace holds no listing, read
    or write. *)
Theorem source_is_validated_before_the_walk
    {FS : Type} (P : Platform FS) (args : list string) (s : FS) (here : string)
    (Hcwd : cwd P = Ok here) :
  let sourcePath := sourcePath_of P here args in
  let not_found_message :=
    JS.LF ++ "❌ An error occurred: Source directory not found: " ++ sourcePath in
  let not_a_directory_message :=
    JS.LF ++ "❌ An error occurred: Source path is not a directory: " ++ sourcePath in
  (forall outcome path,
      outcome = Allowlist.run P args s \/ outcome = Denylist.run P args s ->
      In path (Described.listings (events outcome)) ->
      path = sourcePath /\ exists_ P s sourcePath = true /\
      exists st, stat P s sourcePath = Ok st /\ isDirectory st = true) /\
  (exists_ P s sourcePath = false ->
   forall outcome,
     outcome = Allowlist.run P args s \/ outcome = Denylist.run P args s ->
     outcome = {| exitCode := 1; store := s;
                  events := [searching sourcePath; FsExists sourcePath;
                             ConsoleError [not_found_message]] |}) /\
  (forall st,
      exists_ P s sourcePath = true ->
      stat P s sourcePath = Ok st ->
      isDirectory st = false ->
      forall outcome,
        outcome = Allowlist.run P args s \/ outcome = Denylist.run P args s ->
        outcome = {| exitCode := 1; store := s;
                     events := [searching sourcePath; FsExists sourcePath; FsStat sourcePath;
                                ConsoleError [not_a_directory_message]] |}) /\
  not_found_message <> not_a_directory_message.
Proof.
  intros sourcePath m1 m2. split; [|split; [|split]].
  - intros outcome path Hwhich Hin.
    assert (Hv : exists here' st,
               cwd P = Ok here' /\ path = sourcePath_of P here' args /\
               exists_ P s path = true /\ stat P s path = Ok st /\ isDirectory st = true).
    { destruct Hwhich as [-> | ->];
        [exact (allow_listing_validated P args s path Hin)
        | exact (deny_listing_validated P args s path Hin)]. }
    destruct Hv as (here' & st & Hcwd' & Hpath & Hex & Hst & Hdir).
    assert (Hsame : here = here') by exact (cwd_unique P here here' Hcwd Hcwd').
    subst here' path. fold sourcePath in Hex, Hst.
    split; [reflexivity|]. split; [exact Hex|]. now exists st.
  - intros Hex outcome [-> | ->].
    + exact (allow_run_source_missing P args s here Hcwd Hex).
    + exact (deny_run_source_missing P args s here Hcwd Hex).
  - intros st Hex Hst Hdir outcome [-> | ->].
    + exact (allow_run_not_directory P args s here Hcwd st Hex Hst Hdir).
    + exact (deny_run_not_directory P args s here Hcwd st Hex Hst Hdir).
  - unfold m1, m2. cbn [String.append JS.LF]. intros H. discriminate H.
Qed.

Lemma source_is_validated_before_the_walk_witness :
  cwd (MemFS.platform "/w") = Ok "/w" /\
  exitCode (Denylist.run (MemFS.platform "/w") (MemFS.argv_src "/nope") MemFS.tree_a) = 1%Z /\
  events (Allowlist.run (MemFS.platform "/w") (MemFS.argv_src "/w/a.md") MemFS.tree_a)
  = [searching "/w/a.md"; FsExists "/w/a.md"; FsStat "/w/a.md";
     ConsoleError [JS.LF ++ "❌ An error occurred: Source path is not a directory: /w/a.md"]].
Proof.
  split; [reflexivity|]. split.
  - destruct (source_is_validated_before_the_walk
                (MemFS.platform "/w") (MemFS.argv_src "/nope") MemFS.tree_a "/w" eq_refl)
      as (_ & Hmissing & _ & _).
    rewrite (Hmissing eq_refl _ (or_intror eq_refl)). reflexivity.
  - destruct (source_is_validated_before_the_walk
                (MemFS.platform "/w") (MemFS.argv_src "/w/a.md") MemFS.tree_a "/w" eq_refl)
      as (_ & _ & Hnotdir & _).
    rewrite (Hnotdir {| isDirectory := false |} eq_refl eq_refl eq_refl _ (or_introl eq_refl)).
    reflexivity.
Defined.

(** ** No candidates *)

(** C6.  When the source is a directory and the listing leaves no candidate
    after filtering, either script prints the warning and stops: the exit
    code is 0, the store is the initial one, and the trace ends with the
    warning, with no read and no write. *)
Theorem no_candidates_is_a_quiet_success
    {FS : Type} (P : Platform FS) (args : list string) (s : FS) (here : string) (st : Stats)
    (Hcwd : cwd P = Ok here)
    (Hex : exists_ P s (sourcePath_of P here args) = true)
    (Hst : stat P s (sourcePath_of P here args) = Ok st)
    (Hdir : isDirectory st = true) :
  let sourcePath := sourcePath_of P here args in
  let quiet :=
    {| exitCode := 0; store := s;
       events := [searching sourcePath; FsExists sourcePath; FsStat sourcePath;
                  FsReaddir sourcePath;
                  ConsoleWarn ("⚠️ No Markdown files found in '" ++ sourcePath
                               ++ "'. Exiting.")] |} in
  (forall allFiles,
      readdir P s sourcePath = Ok allFiles ->
      Allowlist.markdownFiles_of allFiles = [] ->
      Allowlist.run P args s = quiet) /\
  (forall allFiles,
      readdirWithFileTypes P s sourcePath = Ok allFiles ->
      Denylist.files_of allFiles = [] ->
      Denylist.run P args s = quiet).
Proof.
  intros sourcePath quiet. split; intros allFiles Hrd Hnil.
  - exact (allow_run_no_candidates P args s here Hcwd st Hex Hst Hdir allFiles Hrd Hnil).
  - exact (deny_run_no_candidates P args s here Hcwd st Hex Hst Hdir allFiles Hrd Hnil).
Qed.

Lemma no_candidates_is_a_quiet_success_witness :
  exitCode (Allowlist.run (MemFS.platform "/w") MemFS.argv MemFS.tree_log) = 0%Z /\
  store (Denylist.run (MemFS.platform "/w") MemFS.argv MemFS.tree_log) = MemFS.tree_log.
Proof.
  destruct (no_candidates_is_a_quiet_success
              (MemFS.platform "/w") MemFS.argv MemFS.tree_log "/w" {| isDirectory := true |}
              eq_refl eq_refl eq_refl eq_refl)
    as (Hallow & Hdeny).
  split.
  - rewrite (Hallow ["x.log"] eq_refl eq_refl). reflexivity.
  - rewrite (Hdeny [{| name := "x.log"; parentPath := "/w"; isFile := true |}]
               eq_refl eq_refl).
    reflexivity.
Defined.

(** ** Errors *)

Section ErrorFacts.
Context {FS : Type} (P : Platform FS) (s : FS).
Local Open Scope list_scope.

Lemma writes_report (e : thrown) : Described.writes [IO.report e] = [].
Proof. now destruct e. Qed.

Lemma allow_read_of_candidate (sp : string) (files contents : list string) (p : string) :
  allow_reads_ok P s sp files contents -> In p files ->
  exists c, text P s (join P sp p) = Ok c.
Proof.
  induction 1 as [|q c files contents Hq Hrest IH]; intros Hin; [contradiction|].
  destruct Hin as [-> | Hin]; [now exists c | now apply IH].
Qed.

Lemma deny_read_of_candidate (files : list Dirent) (contents : list string) (p : Dirent) :
  deny_reads_ok P s files contents -> In p files ->
  exists c, text P s (deny_fullPath P p) = Ok c.
Proof.
  induction 1 as [|q c files contents Hq Hrest IH]; intros Hin; [contradiction|].
  destruct Hin as [-> | Hin]; [now exists c | now apply IH].
Qed.

End ErrorFacts.

(** Closes a case of the run analysis whose facts contradict the facts at
    hand: the same call cannot have two results. *)
Ltac same_call :=
  repeat match goal with x := _ |- _ => subst x end;
  repeat match goal with
    | H1 : cwd ?P = Ok ?a, H2 : cwd ?P = Ok ?b |- _ =>
        assert (a = b) by (exact (cwd_unique P a b H1 H2)); subst b; clear H2
    | H1 : ?f = Ok ?a, H2 : ?f = Ok ?b |- _ =>
        rewrite H1 in H2; injection H2 as <-
    | H1 : ?f = Ok _, H2 : ?f = Throw _ |- _ =>
        rewrite H1 in H2; discriminate H2
    | H1 : ?f = true, H2 : ?f = false |- _ =>
        rewrite H1 in H2; discriminate H2
    end.

(** C7.  In either script an error of any stage ends the process with exit
    code 1: a failing current-directory lookup during argument resolution, a
    missing source, a failing or negative status call, a failing directory
    listing, a failing read of any candidate, and a failing final write.
    Whenever the exit code is 1 the store is the one the run started from,
    and every write call in the trace is one that raised: nothing was
    written, not even in part. *)
Theorem any_error_exits_1_without_output
    {FS : Type} (P : Platform FS) (args : list string) (s : FS) :
  let allow := Allowlist.run P args s in
  let deny := Denylist.run P args s in
  ((exists e, cwd P = Throw e) -> exitCode allow = 1%Z /\ exitCode deny = 1%Z) /\
  (forall here, cwd P = Ok here ->
     let sourcePath := sourcePath_of P here args in
     let outputPath := outputPath_of P here args in
     (exists_ P s sourcePath = false -> exitCode allow = 1%Z /\ exitCode deny = 1%Z) /\
     ((exists e, stat P s sourcePath = Throw e) ->
      exitCode allow = 1%Z /\ exitCode deny = 1%Z) /\
     (forall st, stat P s sourcePath = Ok st -> isDirectory st = false ->
                 exitCode allow = 1%Z /\ exitCode deny = 1%Z) /\
     ((exists e, readdir P s sourcePath = Throw e) -> exitCode allow = 1%Z) /\
     ((exists e, readdirWithFileTypes P s sourcePath = Throw e) -> exitCode deny = 1%Z) /\
     (forall allFiles relativePath e,
         readdir P s sourcePath = Ok allFiles ->
         In relativePath (Allowlist.markdownFiles_of allFiles) ->
         text P s (join P sourcePath relativePath) = Throw e ->
         exitCode allow = 1%Z) /\
     (forall allFiles fileInfo e,
         readdirWithFileTypes P s sourcePath = Ok allFiles ->
         In fileInfo (Denylist.files_of allFiles) ->
         text P s (join P (parentPath fileInfo) (name fileInfo)) = Throw e ->
         exitCode deny = 1%Z) /\
     (forall st allFiles contents e,
         exists_ P s sourcePath = true -> stat P s sourcePath = Ok st ->
         isDirectory st = true ->
         readdir P s sourcePath = Ok allFiles ->
         Allowlist.markdownFiles_of allFiles <> [] ->
         allow_reads_ok P s sourcePath (Allowlist.markdownFiles_of allFiles) contents ->
         write P s outputPath
           (Described.document (allow_blocks (Allowlist.markdownFiles_of allFiles) contents))
         = Throw e ->
         exitCode allow = 1%Z) /\
     (forall st allFiles contents e,
         exists_ P s sourcePath = true -> stat P s sourcePath = Ok st ->
         isDirectory st = true ->
         readdirWithFileTypes P s sourcePath = Ok allFiles ->
         Denylist.files_of allFiles <> [] ->
         deny_reads_ok P s (Denylist.files_of allFiles) contents ->
         write P s outputPath
           (Described.document (deny_blocks P (Denylist.files_of allFiles) contents))
         = Throw e ->
         exitCode deny = 1%Z)) /\
  (forall outcome,
      outcome = allow \/ outcome = deny ->
      exitCode outcome = 1%Z ->
      store outcome = s /\
      Forall (fun w => exists e, write P s (fst w) (snd w) = Throw e)
             (Described.writes (events outcome))).
Proof.
  intros allow deny. split; [|split].
  - intros [e He]. split.
    + unfold allow. now rewrite (allow_run_cwd_throws P args s e He).
    + unfold deny. now rewrite (deny_run_cwd_throws P args s e He).
  - intros here Hcwd sourcePath outputPath.
    unfold sourcePath, outputPath in *. clear sourcePath outputPath.
    repeat match goal with |- _ /\ _ => split end.
    + intros Hex. split.
      * unfold allow. now rewrite (allow_run_source_missing P args s here Hcwd Hex).
      * unfold deny. now rewrite (deny_run_source_missing P args s here Hcwd Hex).
    + intros [e He]. split.
      * unfold allow. apply allow_run_cases; intros; try reflexivity; same_call.
      * unfold deny. apply deny_run_cases; intros; try reflexivity; same_call.
    + intros st Hst Hdir. split.
      * unfold allow. apply allow_run_cases; intros; try reflexivity; same_call.
      * unfold deny. apply deny_run_cases; intros; try reflexivity; same_call.
    + intros [e He]. unfold allow.
      apply allow_run_cases; intros; try reflexivity; same_call.
    + intros [e He]. unfold deny.
      apply deny_run_cases; intros; try reflexivity; same_call.
    + intros allFiles p e Hrd Hin Hp. unfold allow.
      apply allow_run_cases; intros; try reflexivity; same_call.
      * match goal with H : Allowlist.markdownFiles_of _ = [] |- _ =>
          rewrite H in Hin; contradiction end.
      * match goal with H : allow_reads_ok _ _ _ _ _ |- _ =>
          destruct (allow_read_of_candidate P s _ _ _ p H Hin) as [c Hc] end.
        rewrite Hc in Hp. discriminate Hp.
    + intros allFiles p e Hrd Hin Hp. unfold deny.
      apply deny_run_cases; intros; try reflexivity; same_call.
      * match goal with H : Denylist.files_of _ = [] |- _ =>
          rewrite H in Hin; contradiction end.
      * match goal with H : deny_reads_ok _ _ _ _ |- _ =>
          destruct (deny_read_of_candidate P s _ _ p H Hin) as [c Hc] end.
        unfold deny_fullPath in Hc. rewrite Hc in Hp. discriminate Hp.
    + intros st allFiles contents e Hex Hst Hdir Hrd Hne Hok Hw. unfold allow.
      now rewrite (allow_run_write_throws P args s here Hcwd st Hex Hst Hdir allFiles Hrd
                     contents Hne Hok e Hw).
    + intros st allFiles contents e Hex Hst Hdir Hrd Hne Hok Hw. unfold deny.
      now rewrite (deny_run_write_throws P args s here Hcwd st Hex Hst Hdir allFiles Hrd
                     contents Hne Hok e Hw).
  - intros outcome [-> | ->].
    + unfold allow. apply allow_run_cases; intros; cbn [exitCode store events] in *;
        try discriminate; (split; [reflexivity|]);
        repeat match goal with x := _ |- _ => subst x end;
        repeat match goal with |- context [IO.report ?e] => is_var e; destruct e end;
        rewrite ?writes_app, ?allow_loop_writes; cbn [Described.writes flat_map app IO.report];
        repeat constructor; eexists; eassumption.
    + unfold deny. apply deny_run_cases; intros; cbn [exitCode store events] in *;
        try discriminate; (split; [reflexivity|]);
        repeat match goal with x := _ |- _ => subst x end;
        repeat match goal with |- context [IO.report ?e] => is_var e; destruct e end;
        rewrite ?writes_app, ?deny_loop_writes; cbn [Described.writes flat_map app IO.report];
        repeat constructor; eexists; eassumption.
Qed.

Lemma any_error_exits_1_without_output_witness :
  let outcome := Allowlist.run (MemFS.platform "/w") MemFS.argv MemFS.tree_dir in
  exitCode outcome = 1%Z /\ store outcome = MemFS.tree_dir.
Proof.
  intros outcome.
  destruct (any_error_exits_1_without_output (MemFS.platform "/w") MemFS.argv MemFS.tree_dir)
    as (_ & Hstages & Hstore).
  destruct (Hstages "/w" eq_refl) as (_ & _ & _ & _ & _ & Hread & _).
  assert (Hexit : exitCode outcome = 1%Z).
  { apply (Hread ["notes.md"; "notes.md/x.txt"] "notes.md"
             (ErrorObject "EISDIR: illegal operation on a directory, read '/w/notes.md'")).
    - reflexivity.
    - vm_compute. now left.
    - reflexivity. }
  split; [exact Hexit|].
  exact (proj1 (Hstore outcome (or_introl eq_refl) Hexit)).
Defined.

(** ** The combined document *)

Section Written.
Context {FS : Type} (P : Platform FS) (args : list string) (s : FS).
Context (here : string) (st : Stats).
Hypothesis Hcwd : cwd P = Ok here.
Hypothesis Hex : exists_ P s (sourcePath_of P here args) = true.
Hypothesis Hst : stat P s (sourcePath_of P here args) = Ok st.
Hypothesis Hdir : isDirectory st = true.
Local Open Scope list_scope.

Let sp := sourcePath_of P here args.
Let op := outputPath_of P here args.

(** With candidates that are all read, the trace holds one write call, of
    the document, and the store is what that call returns. *)
Lemma allow_run_writes (allFiles contents : list string) :
  readdir P s sp = Ok allFiles ->
  Allowlist.markdownFiles_of allFiles <> [] ->
  allow_reads_ok P s sp (Allowlist.markdownFiles_of allFiles) contents ->
  let doc := Described.document (allow_blocks (Allowlist.markdownFiles_of allFiles) contents) in
  Described.writes (events (Allowlist.run P args s)) = [(op, doc)] /\
  (forall s', write P s op doc = Ok s' ->
              store (Allowlist.run P args s) = s' /\ exitCode (Allowlist.run P args s) = 0%Z).
Proof.
  intros Hrd Hne Hok doc. unfold sp, op in *.
  destruct (write P s (outputPath_of P here args) doc) as [s1|e] eqn:Hw.
  - rewrite (allow_run_success P args s here Hcwd st Hex Hst Hdir allFiles Hrd
               contents Hne Hok s1 Hw).
    cbn [events store exitCode]. rewrite !writes_app, allow_loop_writes.
    split; [reflexivity|]. intros s' Hs'. injection Hs' as <-. now split.
  - rewrite (allow_run_write_throws P args s here Hcwd st Hex Hst Hdir allFiles Hrd
               contents Hne Hok e Hw).
    cbn [events store exitCode]. rewrite !writes_app, allow_loop_writes.
    split; [now destruct e | intros s' Hs'; discriminate Hs'].
Qed.

Lemma deny_run_writes (allFiles : list Dirent) (contents : list string) :
  readdirWithFileTypes P s sp = Ok allFiles ->
  Denylist.files_of allFiles <> [] ->
  deny_reads_ok P s (Denylist.files_of allFiles) contents ->
  let doc := Described.document (deny_blocks P (Denylist.files_of allFiles) contents) in
  Described.writes (events (Denylist.run P args s)) = [(op, doc)] /\
  (forall s', write P s op doc = Ok s' ->
              store (Denylist.run P args s) = s' /\ exitCode (Denylist.run P args s) = 0%Z).
Proof.
  intros Hrd Hne Hok doc. unfold sp, op in *.
  destruct (write P s (outputPath_of P here args) doc) as [s1|e] eqn:Hw.
  - rewrite (deny_run_success P args s here Hcwd st Hex Hst Hdir allFiles Hrd
               contents Hne Hok s1 Hw).
    cbn [events store exitCode]. rewrite !writes_app, deny_loop_writes.
    split; [reflexivity|]. intros s' Hs'. injection Hs' as <-. now split.
  - rewrite (deny_run_write_throws P args s here Hcwd st Hex Hst Hdir allFiles Hrd
               contents Hne Hok e Hw).
    cbn [events store exitCode]. rewrite !writes_app, deny_loop_writes.
    split; [now destruct e | intros s' Hs'; discriminate Hs'].
Qed.

End Written.

Lemma blocks_app (l1 l2 : list (string * string)) :
  Described.blocks (l1 ++ l2) = Described.blocks l1 ++ Described.blocks l2.
Proof.
  induction l1 as [|[p b] l1 IH]; [reflexivity|].
  cbn [app Described.blocks]. now rewrite IH, append_assoc.
Qed.

(** C1, as the code has it.  When the source is a directory and every
    candidate of the non-empty candidate list is read, the run calls the
    write primitive once, on the resolved output path, with the title line
    followed, for each candidate in order, by the block
    [\n---\n## Source: <path>\n---\n] and the body, all fragments joined by
    newlines; a successful write leaves its result as the store and the exit
    code is 0.  In the allowlist script the path is the relative path and
    the body is the file's text.  In the denylist script the path is the
    joined parent path and name, and the body is the file's text for a name
    ending in [.md] and the text between two fence lines otherwise. *)
Theorem combined_document_is_written_once
    {FS : Type} (P : Platform FS) (args : list string) (s : FS) (here : string) (st : Stats)
    (Hcwd : cwd P = Ok here)
    (Hex : exists_ P s (sourcePath_of P here args) = true)
    (Hst : stat P s (sourcePath_of P here args) = Ok st)
    (Hdir : isDirectory st = true) :
  let sourcePath := sourcePath_of P here args in
  let outputPath := outputPath_of P here args in
  (forall allFiles contents,
      readdir P s sourcePath = Ok allFiles ->
      let markdownFiles := Allowlist.markdownFiles_of allFiles in
      markdownFiles <> [] ->
      Forall2 (fun relativePath fileContent =>
                 text P s (join P sourcePath relativePath) = Ok fileContent)
              markdownFiles contents ->
      let document := Described.document (combine markdownFiles contents) in
      let outcome := Allowlist.run P args s in
      Described.writes (events outcome) = [(outputPath, document)] /\
      (forall s', write P s outputPath document = Ok s' ->
                  store outcome = s' /\ exitCode outcome = 0%Z)) /\
  (forall allFiles contents,
      readdirWithFileTypes P s sourcePath = Ok allFiles ->
      let files := Denylist.files_of allFiles in
      files <> [] ->
      Forall2 (fun fileInfo fileContent =>
                 text P s (join P (parentPath fileInfo) (name fileInfo)) = Ok fileContent)
              files contents ->
      let document :=
        Described.document
          (map (fun fc =>
                  (join P (parentPath (fst fc)) (name (fst fc)),
                   if JS.endsWith (name (fst fc)) ".md" then snd fc
                   else "```" ++ JS.LF ++ snd fc ++ JS.LF ++ "```"))
               (combine files contents)) in
      let outcome := Denylist.run P args s in
      Described.writes (events outcome) = [(outputPath, document)] /\
      (forall s', write P s outputPath document = Ok s' ->
                  store outcome = s' /\ exitCode outcome = 0%Z)).
Proof.
  intros sourcePath outputPath. split.
  - intros allFiles contents Hrd markdownFiles Hne Hok.
    exact (allow_run_writes P args s here st Hcwd Hex Hst Hdir allFiles contents Hrd Hne Hok).
  - intros allFiles contents Hrd files Hne Hok.
    exact (deny_run_writes P args s here st Hcwd Hex Hst Hdir allFiles contents Hrd Hne Hok).
Qed.

Lemma combined_document_is_written_once_witness :
  Described.writes (events (Allowlist.run (MemFS.platform "/w") MemFS.argv MemFS.tree_zba))
  = [("/w/combined.md", Described.document [("a.md", "A"); ("z.md", "Z")])] /\
  Described.writes (events (Denylist.run (MemFS.platform "/w") MemFS.argv MemFS.tree_b))
  = [("/w/combined.md", Described.document [("/w/b.txt", "```" ++ JS.LF ++ "B" ++ JS.LF ++ "```")])].
Proof.
  destruct (combined_document_is_written_once
              (MemFS.platform "/w") MemFS.argv MemFS.tree_zba "/w" {| isDirectory := true |}
              eq_refl eq_refl eq_refl eq_refl) as (Hallow & _).
  destruct (combined_document_is_written_once
              (MemFS.platform "/w") MemFS.argv MemFS.tree_b "/w" {| isDirectory := true |}
              eq_refl eq_refl eq_refl eq_refl) as (_ & Hdeny).
  split.
  - refine (proj1 (Hallow ["z.md"; "b.txt"; "a.md"] ["A"; "Z"] eq_refl _ _)).
    + vm_compute. discriminate.
    + vm_compute. repeat constructor.
  - refine (proj1 (Hdeny [{| name := "b.txt"; parentPath := "/w"; isFile := true |}] ["B"]
                     eq_refl _ _)).
    + vm_compute. discriminate.
    + vm_compute. repeat constructor.
Defined.

(** The claim as first worded fails on the denylist script: the text of a
    file that is not [.md] does not follow its separator verbatim. *)
Lemma combined_document_verbatim_counterexample :
  Denylist.files_of (MemFS.list_dirents MemFS.tree_b "/w")
  = [{| name := "b.txt"; parentPath := "/w"; isFile := true |}] /\
  text (MemFS.platform "/w") MemFS.tree_b "/w/b.txt" = Ok "B" /\
  Described.writes (events (Denylist.run (MemFS.platform "/w") MemFS.argv MemFS.tree_b))
  <> [("/w/combined.md", Described.document [("/w/b.txt", "B")])].
Proof.
  split; [reflexivity|]. split; [reflexivity|].
  vm_compute. intros H. discriminate H.
Qed.

(** ** Raw and fenced bodies *)

Lemma deny_blocks_app {FS : Type} (P : Platform FS) (s : FS)
      (before after : list Dirent) (cb ca : list string) :
  deny_reads_ok P s before cb ->
  deny_blocks P (before ++ after) (cb ++ ca) = (deny_blocks P before cb ++ deny_blocks P after ca)%list.
Proof.
  induction 1 as [|f c before cb Hf Hrest IH]; [reflexivity|].
  unfold deny_blocks in *. cbn [app combine map]. now rewrite IH.
Qed.

(** C4.  In the denylist script, which is the one with the mixed-content
    policy, take any candidate, the candidates before and after it, and the
    texts read for all of them.  The document handed to the one write call
    is the document of the candidates before, then this candidate's
    separator and body, then the blocks of the candidates after; the body is
    the file's text itself when the name ends in [.md] and the text between
    two fence lines otherwise.  When that write succeeds the run ends with
    exit code 0 and the store is the one the write returned, with this
    document at the output path. *)
Theorem mixed_content_policy
    {FS : Type} (P : Platform FS) (args : list string) (s : FS) (here : string) (st : Stats)
    (allFiles before after : list Dirent) (fileInfo : Dirent)
    (cb ca : list string) (fileContent : string)
    (Hcwd : cwd P = Ok here)
    (Hex : exists_ P s (sourcePath_of P here args) = true)
    (Hst : stat P s (sourcePath_of P here args) = Ok st)
    (Hdir : isDirectory st = true)
    (Hrd : readdirWithFileTypes P s (sourcePath_of P here args) = Ok allFiles)
    (Hfiles : Denylist.files_of allFiles = (before ++ fileInfo :: after)%list)
    (Hbefore : deny_reads_ok P s before cb)
    (Hthis : text P s (join P (parentPath fileInfo) (name fileInfo)) = Ok fileContent)
    (Hafter : deny_reads_ok P s after ca) :
  let outputPath := outputPath_of P here args in
  let fullPath := join P (parentPath fileInfo) (name fileInfo) in
  let body :=
    if JS.endsWith (name fileInfo) ".md" then fileContent
    else "```" ++ JS.LF ++ fileContent ++ JS.LF ++ "```" in
  let document :=
    Described.document (deny_blocks P before cb)
      ++ Described.block fullPath body
      ++ Described.blocks (deny_blocks P after ca) in
  let outcome := Denylist.run P args s in
  Described.writes (events outcome) = [(outputPath, document)] /\
  (forall s', write P s outputPath document = Ok s' ->
              store outcome = s' /\ exitCode outcome = 0%Z).
Proof.
  intros outputPath fullPath body document outcome.
  assert (Hok : deny_reads_ok P s (Denylist.files_of allFiles) (cb ++ fileContent :: ca)).
  { rewrite Hfiles. apply Forall2_app; [exact Hbefore|]. constructor; assumption. }
  assert (Hne : Denylist.files_of allFiles <> []).
  { rewrite Hfiles. now destruct before. }
  assert (Hdoc : Described.document
                   (deny_blocks P (Denylist.files_of allFiles) (cb ++ fileContent :: ca))
                 = document).
  { rewrite Hfiles,
      (deny_blocks_app P s before (fileInfo :: after) cb (fileContent :: ca) Hbefore).
    unfold document, Described.document. rewrite blocks_app, !append_assoc.
    reflexivity. }
  destruct (deny_run_writes P args s here st Hcwd Hex Hst Hdir allFiles _ Hrd Hne Hok)
    as [Hw Hstore].
  rewrite Hdoc in Hw, Hstore. split; [exact Hw | exact Hstore].
Qed.

Lemma mixed_content_policy_witness :
  let outcome := Denylist.run (MemFS.platform "/w") MemFS.argv MemFS.tree_zba in
  let document :=
    Described.document [("/w/z.md", "Z")]
      ++ Described.block "/w/b.txt" ("```" ++ JS.LF ++ "B" ++ JS.LF ++ "```")
      ++ Described.blocks [("/w/a.md", "A")] in
  Described.writes (events outcome) = [("/w/combined.md", document)] /\
  exitCode outcome = 0%Z /\
  MemFS.lookup (store outcome) "/w/combined.md" = Some (MemFS.File document).
Proof.
  intros outcome document.
  destruct (mixed_content_policy (MemFS.platform "/w") MemFS.argv MemFS.tree_zba "/w"
              {| isDirectory := true |}
              (MemFS.list_dirents MemFS.tree_zba "/w")
              [{| name := "z.md"; parentPath := "/w"; isFile := true |}]
              [{| name := "a.md"; parentPath := "/w"; isFile := true |}]
              {| name := "b.txt"; parentPath := "/w"; isFile := true |}
              ["Z"] ["A"] "B"
              eq_refl eq_refl eq_refl eq_refl eq_refl eq_refl) as [Hw Hstore].
  - vm_compute. repeat constructor.
  - reflexivity.
  - vm_compute. repeat constructor.
  - split; [exact Hw|].
    destruct (Hstore (MemFS.put MemFS.tree_zba "/w/combined.md" document) eq_refl)
      as [Hs Hexit].
    split; [exact Hexit|]. fold outcome in Hs. rewrite Hs. reflexivity.
Defined.

(** ** Order of the blocks *)

(** C2, at the input where the code departs from it.  The directory walk
    reports [z.md], [b.txt], [a.md] in that order and none is excluded.  The
    denylist script writes their blocks in the order of the walk, [z.md]
    first and [a.md] last, where the sorted order is [a.md], [b.txt],
    [z.md]; the allowlist script, on the same tree, writes [a.md] before
    [z.md]. *)
Theorem denylist_blocks_follow_the_walk :
  readdirWithFileTypes (MemFS.platform "/w") MemFS.tree_zba "/w"
  = Ok [{| name := "z.md"; parentPath := "/w"; isFile := true |};
        {| name := "b.txt"; parentPath := "/w"; isFile := true |};
        {| name := "a.md"; parentPath := "/w"; isFile := true |}] /\
  Described.writes (events (Denylist.run (MemFS.platform "/w") MemFS.argv MemFS.tree_zba))
  = [("/w/combined.md",
      Described.document [("/w/z.md", "Z"); ("/w/b.txt", Described.fenced "B");
                          ("/w/a.md", "A")])] /\
  Described.writes (events (Allowlist.run (MemFS.platform "/w") MemFS.argv MemFS.tree_zba))
  = [("/w/combined.md", Described.document [("a.md", "A"); ("z.md", "Z")])].
Proof.
  split; [reflexivity|]. split; vm_compute; reflexivity.
Qed.

(** ** The stated exclusion rule implies the script's *)

Section GlobFacts.

Lemma glob_match_literal_cons (c : ascii) (q n : string) :
  c <> "*"%char ->
  Described.glob_match (String c q) n
  = match n with
    | EmptyString => false
    | String d n' => Ascii.eqb c d && Described.glob_match q n'
    end.
Proof.
  intros Hc. destruct c as [b0 b1 b2 b3 b4 b5 b6 b7].
  destruct b0, b1, b2, b3, b4, b5, b6, b7; try reflexivity.
  now contradiction Hc.
Qed.

Lemma glob_literal (q n : string) :
  ~ In "*"%char (list_ascii_of_string q) ->
  Described.glob_match q n = true -> n = q.
Proof.
  revert n. induction q as [|c q IH]; intros n Hno H.
  - cbn [Described.glob_match] in H. now apply String.eqb_eq in H.
  - rewrite glob_match_literal_cons in H.
    2:{ intros ->. apply Hno. now left. }
    destruct n as [|d n]; [discriminate H|].
    apply andb_true_iff in H. destruct H as [Hcd Hrest].
    apply Ascii.eqb_eq in Hcd. subst d. f_equal.
    apply IH; [|exact Hrest]. intros Hin. apply Hno. now right.
Qed.

Lemma glob_star (q n : string) :
  Described.glob_match (String "*" q) n = true ->
  exists pre post, n = pre ++ post /\ Described.glob_match q post = true.
Proof.
  induction n as [|d n IH]; intros H.
  - cbn [Described.glob_match] in H. rewrite orb_false_r in H. now exists "", "".
  - change (Described.glob_match (String "*" q) (String d n))
      with (Described.glob_match q (String d n) || Described.glob_match (String "*" q) n) in H.
    apply orb_true_iff in H. destruct H as [H | H].
    + now exists "", (String d n).
    + destruct (IH H) as (pre & post & -> & Hpost). now exists (String d pre), post.
Qed.

Lemma search_append (r : JS.regex) (pre s : string) :
  JS.match_here r s = true -> JS.search r (pre ++ s) = true.
Proof.
  intros H. induction pre as [|c pre IH].
  - destruct s; cbn [String.append JS.search]; now rewrite H.
  - cbn [String.append JS.search]. rewrite IH. apply orb_true_r.
Qed.

Lemma glob_implies_regex (file : Dirent) (pattern : string) :
  In pattern Denylist.excludeFiles ->
  Described.glob_match pattern (name file) = true ->
  Denylist.name_matches file pattern = true.
Proof.
  intros Hin H. unfold Denylist.name_matches.
  destruct file as [n parent kind]. cbn [name] in *.
  cbn [Denylist.excludeFiles In] in Hin.
  destruct Hin as [<- | [<- | [<- | [<- | [<- | [<- | []]]]]]].
  1-3: apply glob_star in H; destruct H as (pre & post & -> & H);
       apply glob_literal in H;
       [subst post; apply search_append; reflexivity
       | cbn; intuition discriminate].
  all: apply glob_literal in H; [subst n; reflexivity | cbn; intuition discriminate].
Qed.

(** Whatever the stated rule excludes, the script drops; the converse
    fails. *)
Lemma stated_exclusion_is_dropped (file : Dirent) :
  Described.excluded file = true -> Denylist.keep file = false.
Proof.
  unfold Described.excluded, Denylist.keep. intros H.
  apply orb_true_iff in H. destruct H as [H | H].
  - apply orb_true_iff in H. destruct H as [H | H].
    + unfold Denylist.isExcludedFolder. now rewrite H.
    + apply existsb_exists in H. destruct H as (pattern & Hin & Hglob).
      assert (Hre : Denylist.isExcludedFile file = true).
      { apply existsb_exists. exists pattern. split; [exact Hin|].
        now apply glob_implies_regex. }
      rewrite Hre. now rewrite andb_false_r.
  - apply negb_true_iff in H. rewrite H. apply andb_false_r.
Qed.

End GlobFacts.

(** ** Exclusion by file-name pattern *)

(** C3, at the input where the code departs from it.  A regular file named
    [my.logbook.txt] in a folder that is not excluded matches none of the
    patterns when [*] stands for zero or more characters and the pattern
    covers the whole name, so the stated rule keeps it.  The script turns
    [*.log] into the regular expression [.*.log], which matches anywhere in
    the name and whose dot stands for any character: the file is dropped.
    So is [blog.md]. *)
Theorem denylist_pattern_matches_inside_names :
  let logbook := {| name := "my.logbook.txt"; parentPath := "/w/notes"; isFile := true |} in
  let blog := {| name := "blog.md"; parentPath := "/w/notes"; isFile := true |} in
  Described.glob_match "*.log" (name logbook) = false /\
  Described.excluded logbook = false /\
  Denylist.name_matches logbook "*.log" = true /\
  Denylist.keep logbook = false /\
  Described.excluded blog = false /\
  Denylist.keep blog = false.
Proof.
  vm_compute. repeat split; reflexivity.
Qed.

(** ** The allowlist filter *)

Lemma isMarkdown_spec (file : string) :
  Allowlist.isMarkdown file = true <->
  exists stem, file = stem ++ ".md" \/ file = stem ++ ".mdx" \/ file = stem ++ ".markdown".
Proof.
  unfold Allowlist.isMarkdown. rewrite !orb_true_iff, !endsWith_spec. split.
  - intros [[[stem H] | [stem H]] | [stem H]]; exists stem; auto.
  - intros [stem [H | [H | H]]]; [left; left | left; right | right]; now exists stem.
Qed.

Section MonadFacts.
Context {FS : Type}.
Local Open Scope list_scope.

(** The events of a computation open the events of whatever follows it. *)
Lemma bind_events {A B : Type} (m : IO.M FS A) (k : A -> IO.M FS B)
      (s : FS) (r : result A) (s1 : FS) (t : list Event) :
  m s = (r, s1, t) ->
  exists r' s' t', IO.bind m k s = (r', s', t ++ t').
Proof.
  intros Hm. unfold IO.bind. rewrite Hm. destruct r as [a|e].
  - destruct (k a s1) as [[r' s'] t']. now exists r', s', t'.
  - exists (Throw e), s1, []. now rewrite app_nil_r.
Qed.

Lemma run_process_events (m : IO.M FS unit) (s : FS) (r : result unit) (s1 : FS)
      (t : list Event) :
  m s = (r, s1, t) ->
  exists t', events (IO.run_process m s) = t ++ t'.
Proof.
  intros Hm. unfold IO.run_process. rewrite Hm. destruct r as [u|e].
  - exists []. cbn [events]. now rewrite app_nil_r.
  - now exists [IO.report e].
Qed.

End MonadFacts.

Section AllowlistReads.
Context {FS : Type} (P : Platform FS) (args : list string) (s : FS).
Local Open Scope list_scope.

(** The loop reaches a candidate as soon as the ones before it are read. *)
Lemma allow_loop_reaches (sp : string) (before after cb acc : list string) (p : string) :
  allow_reads_ok P s sp before cb ->
  exists r s' t,
    Allowlist.combine_loop P sp (before ++ p :: after) acc s
    = (r, s', allow_loop_events P sp before ++ [combining p; FileText (join P sp p)] ++ t).
Proof.
  intros Hok. rewrite (allow_loop_app P s sp before (p :: after) cb acc Hok).
  cbn [Allowlist.combine_loop]. io_unfold. io_reduce.
  destruct (text P s (join P sp p)) as [c|e].
  - destruct (Allowlist.combine_loop P sp after _ s) as [[r s'] t].
    exists r, s', t. reflexivity.
  - exists (Throw e), s, []. reflexivity.
Qed.

Lemma allow_run_reaches (here : string) (st : Stats) (allFiles before after cb : list string)
      (p : string) :
  cwd P = Ok here ->
  let sp := sourcePath_of P here args in
  exists_ P s sp = true -> stat P s sp = Ok st -> isDirectory st = true ->
  readdir P s sp = Ok allFiles ->
  Allowlist.markdownFiles_of allFiles = before ++ p :: after ->
  allow_reads_ok P s sp before cb ->
  In (join P sp p) (Described.reads (events (Allowlist.run P args s))).
Proof.
  intros Hcwd sp Hex Hst Hdir Hrd Hsplit Hok.
  rewrite (allow_run_with_candidates P args s here Hcwd st Hex Hst Hdir allFiles Hrd).
  2:{ rewrite Hsplit. now destruct before. }
  destruct (allow_loop_reaches (sourcePath_of P here args) before after cb [title] p Hok)
    as (r & s' & t & Hloop).
  rewrite <- Hsplit in Hloop.
  match goal with
  | |- context [IO.bind ?m ?k] =>
      destruct (bind_events m k s r s' _ Hloop) as (r' & s'' & t' & Hbind)
  end.
  match goal with
  | |- In _ (Described.reads (events (IO.run_process ?m s))) =>
      destruct (run_process_events m s r' s'' _ ltac:(cbv beta; rewrite Hbind; reflexivity))
        as (t'' & ->)
  end.
  rewrite !reads_app. apply in_or_app. left. apply in_or_app. right.
  apply in_or_app. left. apply in_or_app. right. apply in_or_app. left. cbn. now left.
Qed.

End AllowlistReads.

(** C10, as the code has it.  In the allowlist script a path of the listing
    is a candidate
    exactly when the string ends in [.md], [.mdx] or [.markdown]; nothing
    else about the entry is consulted.  Every candidate reached by the loop,
    that is every candidate whose predecessors were read, is handed to the
    file-read primitive under the source path, whatever kind of entry it
    names. *)
Theorem allowlist_membership_is_by_suffix_alone
    {FS : Type} (P : Platform FS) (args : list string) (s : FS) (here : string) (st : Stats)
    (allFiles : list string)
    (Hcwd : cwd P = Ok here)
    (Hex : exists_ P s (sourcePath_of P here args) = true)
    (Hst : stat P s (sourcePath_of P here args) = Ok st)
    (Hdir : isDirectory st = true)
    (Hrd : readdir P s (sourcePath_of P here args) = Ok allFiles) :
  let sourcePath := sourcePath_of P here args in
  (forall file,
      In file (Allowlist.markdownFiles_of allFiles) <->
      In file allFiles /\
      exists stem, file = stem ++ ".md" \/ file = stem ++ ".mdx" \/ file = stem ++ ".markdown") /\
  (forall before relativePath after cb,
      Allowlist.markdownFiles_of allFiles = (before ++ relativePath :: after)%list ->
      Forall2 (fun p c => text P s (join P sourcePath p) = Ok c) before cb ->
      In (join P sourcePath relativePath)
         (Described.reads (events (Allowlist.run P args s)))).
Proof.
  intros sourcePath. split.
  - intros file. unfold Allowlist.markdownFiles_of.
    rewrite sort_In, filter_In, isMarkdown_spec. reflexivity.
  - intros before relativePath after cb Hsplit Hok.
    exact (allow_run_reaches P args s here st allFiles before after cb relativePath
             Hcwd Hex Hst Hdir Hrd Hsplit Hok).
Qed.

(** A directory named [notes.md] is a candidate, is handed to the read
    primitive, and the read of a directory raises. *)
Lemma allowlist_membership_is_by_suffix_alone_witness :
  MemFS.lookup MemFS.tree_dir "/w/notes.md" = Some MemFS.Directory /\
  In "notes.md" (Allowlist.markdownFiles_of (MemFS.list_names MemFS.tree_dir "/w")) /\
  In "/w/notes.md"
     (Described.reads (events (Allowlist.run (MemFS.platform "/w") MemFS.argv MemFS.tree_dir))).
Proof.
  destruct (allowlist_membership_is_by_suffix_alone
              (MemFS.platform "/w") MemFS.argv MemFS.tree_dir "/w" {| isDirectory := true |}
              (MemFS.list_names MemFS.tree_dir "/w")
              eq_refl eq_refl eq_refl eq_refl eq_refl) as (Hmember & Hread).
  split; [reflexivity|]. split.
  - apply Hmember. split; [vm_compute; now left|].
    exists "notes". now left.
  - exact (Hread [] "notes.md" [] [] eq_refl (Forall2_nil _)).
Defined.

(** The claim as first worded fails when an earlier candidate cannot be
    read: with two directories [a.md] and [notes.md] both are candidates,
    the read of [a.md] raises, and [notes.md] is never handed to the read
    primitive. *)
Lemma directory_candidate_not_reached_counterexample :
  let tree := [("/w", MemFS.Directory); ("/w/a.md", MemFS.Directory);
               ("/w/notes.md", MemFS.Directory)] in
  let outcome := Allowlist.run (MemFS.platform "/w") MemFS.argv tree in
  MemFS.lookup tree "/w/notes.md" = Some MemFS.Directory /\
  Allowlist.markdownFiles_of (MemFS.list_names tree "/w") = ["a.md"; "notes.md"] /\
  Described.reads (events outcome) = ["/w/a.md"] /\
  ~ In "/w/notes.md" (Described.reads (events outcome)) /\
  exitCode outcome = 1%Z.
Proof.
  vm_compute. repeat split; try reflexivity.
  intros [H | []]. discriminate H.
Qed.

(** ** Running twice *)

Section Rerun.
Context {FS : Type} (P : Platform FS) (args : list string) (s : FS).
Local Open Scope list_scope.

Lemma allow_reads_transfer (s' : FS) (sp : string) (files contents : list string) :
  allow_reads_ok P s sp files contents ->
  (forall p, In p files -> text P s' (join P sp p) = text P s (join P sp p)) ->
  allow_reads_ok P s' sp files contents.
Proof.
  induction 1 as [|p c files contents Hp Hrest IH]; intros Hsame; constructor.
  - rewrite Hsame by now left. exact Hp.
  - apply IH. intros q Hq. apply Hsame. now right.
Qed.

Lemma deny_reads_transfer (s' : FS) (files : list Dirent) (contents : list string) :
  deny_reads_ok P s files contents ->
  (forall p, In p files -> text P s' (deny_fullPath P p) = text P s (deny_fullPath P p)) ->
  deny_reads_ok P s' files contents.
Proof.
  induction 1 as [|p c files contents Hp Hrest IH]; intros Hsame; constructor.
  - rewrite Hsame by now left. exact Hp.
  - apply IH. intros q Hq. apply Hsame. now right.
Qed.

Lemma allow_rerun :
  exitCode (Allowlist.run P args s) = 0%Z ->
  (forall here, cwd P = Ok here ->
     exists_ P (store (Allowlist.run P args s)) (sourcePath_of P here args)
     = exists_ P s (sourcePath_of P here args) /\
     stat P (store (Allowlist.run P args s)) (sourcePath_of P here args)
     = stat P s (sourcePath_of P here args) /\
     forall allFiles,
       readdir P s (sourcePath_of P here args) = Ok allFiles ->
       exists allFiles',
         readdir P (store (Allowlist.run P args s)) (sourcePath_of P here args)
         = Ok allFiles' /\
         Allowlist.markdownFiles_of allFiles' = Allowlist.markdownFiles_of allFiles) ->
  (forall path, In path (Described.reads (events (Allowlist.run P args s))) ->
                text P (store (Allowlist.run P args s)) path = text P s path) ->
  Described.writes (events (Allowlist.run P args (store (Allowlist.run P args s))))
  = Described.writes (events (Allowlist.run P args s)) /\
  (forall outputPath document s2,
      Described.writes (events (Allowlist.run P args s)) = [(outputPath, document)] ->
      write P (store (Allowlist.run P args s)) outputPath document = Ok s2 ->
      store (Allowlist.run P args (store (Allowlist.run P args s))) = s2 /\
      exitCode (Allowlist.run P args (store (Allowlist.run P args s))) = 0%Z).
Proof.
  pattern (Allowlist.run P args s). apply allow_run_cases;
    try (intros; cbn [exitCode] in *; discriminate).
  - intros here st allFiles Hcwd sp Hex Hst Hdir Hrd Hnil _ _ _. cbn [store events].
    rewrite (allow_run_no_candidates P args s here Hcwd st Hex Hst Hdir allFiles Hrd Hnil).
    split; [reflexivity|]. intros op0 doc0 s2 Hw. discriminate Hw.
  - intros here st allFiles contents s' Hcwd sp op doc Hex Hst Hdir Hrd Hne Hok Hw _.
    cbn [store events]. intros Hframe Htext.
    destruct (Hframe here Hcwd) as (E1 & E2 & E3).
    destruct (E3 allFiles Hrd) as (allFiles' & Hrd' & Hsame).
    fold sp in E1, E2, Hrd'. rewrite <- E1 in Hex. rewrite <- E2 in Hst.
    assert (Hok' : allow_reads_ok P s' sp (Allowlist.markdownFiles_of allFiles') contents).
    { rewrite Hsame. apply (allow_reads_transfer s' sp _ _ Hok). intros p Hp. apply Htext.
      rewrite !reads_app, allow_loop_reads. apply in_or_app. right.
      apply in_or_app. left. now apply in_map. }
    assert (Hne' : Allowlist.markdownFiles_of allFiles' <> []) by now rewrite Hsame.
    destruct (allow_run_writes P args s' here st Hcwd Hex Hst Hdir allFiles' contents
                Hrd' Hne' Hok') as [Hw2 Hstore2].
    rewrite Hsame in Hw2, Hstore2. fold op doc in Hw2, Hstore2.
    rewrite Hw2, !writes_app, allow_loop_writes. split; [reflexivity|].
    intros op0 doc0 s2 Hfirst Hs2. cbn in Hfirst. injection Hfirst as <- <-.
    now apply Hstore2.
Qed.

Lemma deny_rerun :
  exitCode (Denylist.run P args s) = 0%Z ->
  (forall here, cwd P = Ok here ->
     exists_ P (store (Denylist.run P args s)) (sourcePath_of P here args)
     = exists_ P s (sourcePath_of P here args) /\
     stat P (store (Denylist.run P args s)) (sourcePath_of P here args)
     = stat P s (sourcePath_of P here args) /\
     forall allFiles,
       readdirWithFileTypes P s (sourcePath_of P here args) = Ok allFiles ->
       exists allFiles',
         readdirWithFileTypes P (store (Denylist.run P args s)) (sourcePath_of P here args)
         = Ok allFiles' /\
         Denylist.files_of allFiles' = Denylist.files_of allFiles) ->
  (forall path, In path (Described.reads (events (Denylist.run P args s))) ->
                text P (store (Denylist.run P args s)) path = text P s path) ->
  Described.writes (events (Denylist.run P args (store (Denylist.run P args s))))
  = Described.writes (events (Denylist.run P args s)) /\
  (forall outputPath document s2,
      Described.writes (events (Denylist.run P args s)) = [(outputPath, document)] ->
      write P (store (Denylist.run P args s)) outputPath document = Ok s2 ->
      store (Denylist.run P args (store (Denylist.run P args s))) = s2 /\
      exitCode (Denylist.run P args (store (Denylist.run P args s))) = 0%Z).
Proof.
  pattern (Denylist.run P args s). apply deny_run_cases;
    try (intros; cbn [exitCode] in *; discriminate).
  - intros here st allFiles Hcwd sp Hex Hst Hdir Hrd Hnil _ _ _. cbn [store events].
    rewrite (deny_run_no_candidates P args s here Hcwd st Hex Hst Hdir allFiles Hrd Hnil).
    split; [reflexivity|]. intros op0 doc0 s2 Hw. discriminate Hw.
  - intros here st allFiles contents s' Hcwd sp op doc Hex Hst Hdir Hrd Hne Hok Hw _.
    cbn [store events]. intros Hframe Htext.
    destruct (Hframe here Hcwd) as (E1 & E2 & E3).
    destruct (E3 allFiles Hrd) as (allFiles' & Hrd' & Hsame).
    fold sp in E1, E2, Hrd'. rewrite <- E1 in Hex. rewrite <- E2 in Hst.
    assert (Hok' : deny_reads_ok P s' (Denylist.files_of allFiles') contents).
    { rewrite Hsame. apply (deny_reads_transfer s' _ _ Hok). intros p Hp. apply Htext.
      rewrite !reads_app, deny_loop_reads. apply in_or_app. right.
      apply in_or_app. left. now apply in_map. }
    assert (Hne' : Denylist.files_of allFiles' <> []) by now rewrite Hsame.
    destruct (deny_run_writes P args s' here st Hcwd Hex Hst Hdir allFiles' contents
                Hrd' Hne' Hok') as [Hw2 Hstore2].
    rewrite Hsame in Hw2, Hstore2. fold op doc in Hw2, Hstore2.
    rewrite Hw2, !writes_app, deny_loop_writes. split; [reflexivity|].
    intros op0 doc0 s2 Hfirst Hs2. cbn in Hfirst. injection Hfirst as <- <-.
    now apply Hstore2.
Qed.

End Rerun.

(** C9, as the code has it.  Take a first run that ends with exit code 0 and
    a second run, with the same arguments, on the store the first one left.
    If the second run finds the source still there and still a directory,
    the same candidates after filtering and sorting (the walk itself may have
    grown, as long as what it gained is filtered out) and the same text in
    every file the first run read, then it calls the write primitive exactly
    as the first did: same path, identical content; and when that write
    succeeds the second run ends with exit code 0 on the store the write
    returned.  This is the situation when the output file is not a candidate
    of the second run: it lies outside the source directory, or in an
    excluded folder such as [dist], or its name does not pass the filter. *)
Theorem rerun_writes_the_same_document
    {FS : Type} (P : Platform FS) (args : list string) (s : FS) :
  (let first := Allowlist.run P args s in
   let second := Allowlist.run P args (store first) in
   exitCode first = 0%Z ->
   (forall here, cwd P = Ok here ->
      let sourcePath := sourcePath_of P here args in
      exists_ P (store first) sourcePath = exists_ P s sourcePath /\
      stat P (store first) sourcePath = stat P s sourcePath /\
      forall allFiles,
        readdir P s sourcePath = Ok allFiles ->
        exists allFiles',
          readdir P (store first) sourcePath = Ok allFiles' /\
          Allowlist.markdownFiles_of allFiles' = Allowlist.markdownFiles_of allFiles) ->
   (forall path, In path (Described.reads (events first)) ->
                 text P (store first) path = text P s path) ->
   Described.writes (events second) = Described.writes (events first) /\
   (forall outputPath document s2,
       Described.writes (events first) = [(outputPath, document)] ->
       write P (store first) outputPath document = Ok s2 ->
       store second = s2 /\ exitCode second = 0%Z)) /\
  (let first := Denylist.run P args s in
   let second := Denylist.run P args (store first) in
   exitCode first = 0%Z ->
   (forall here, cwd P = Ok here ->
      let sourcePath := sourcePath_of P here args in
      exists_ P (store first) sourcePath = exists_ P s sourcePath /\
      stat P (store first) sourcePath = stat P s sourcePath /\
      forall allFiles,
        readdirWithFileTypes P s sourcePath = Ok allFiles ->
        exists allFiles',
          readdirWithFileTypes P (store first) sourcePath = Ok allFiles' /\
          Denylist.files_of allFiles' = Denylist.files_of allFiles) ->
   (forall path, In path (Described.reads (events first)) ->
                 text P (store first) path = text P s path) ->
   Described.writes (events second) = Described.writes (events first) /\
   (forall outputPath document s2,
       Described.writes (events first) = [(outputPath, document)] ->
       write P (store first) outputPath document = Ok s2 ->
       store second = s2 /\ exitCode second = 0%Z)).
Proof.
  split; intros first second Hexit Hframe Htext.
  - exact (allow_rerun P args s Hexit Hframe Htext).
  - exact (deny_rerun P args s Hexit Hframe Htext).
Qed.

(** The output lies inside the source directory and is still no candidate of
    the second run: [./dist/bundle.md] sits in an excluded folder for
    [combine.ts], and [./combined.txt] has no markdown extension for
    [part_000]. *)
Lemma rerun_writes_the_same_document_witness :
  let P := MemFS.platform "/w" in
  (let args := MemFS.argv_out "./dist/bundle.md" in
   let first := Denylist.run P args MemFS.tree_a in
   let second := Denylist.run P args (store first) in
   Described.writes (events first)
   = [("/w/dist/bundle.md", Described.document [("/w/a.md", "A")])] /\
   readdirWithFileTypes P (store first) "/w"
   <> readdirWithFileTypes P MemFS.tree_a "/w" /\
   Described.writes (events second) = Described.writes (events first) /\
   exitCode second = 0%Z /\ store second = store first) /\
  (let args := MemFS.argv_out "./combined.txt" in
   let first := Allowlist.run P args MemFS.tree_a in
   let second := Allowlist.run P args (store first) in
   Described.writes (events first)
   = [("/w/combined.txt", Described.document [("a.md", "A")])] /\
   Described.writes (events second) = Described.writes (events first) /\
   exitCode second = 0%Z /\ store second = store first).
Proof.
  intros P. split.
  - intros args first second.
    destruct (proj2 (rerun_writes_the_same_document P args MemFS.tree_a) eq_refl)
      as [Hsame Hstore].
    + intros here Hhere. injection Hhere as <-. split; [reflexivity|].
      split; [reflexivity|]. intros allFiles Hrd. injection Hrd as <-.
      eexists. split; reflexivity.
    + intros path Hpath. vm_compute in Hpath. destruct Hpath as [<- | []]. reflexivity.
    + split; [reflexivity|]. split; [vm_compute; intros H; discriminate H|].
      split; [exact Hsame|].
      destruct (Hstore "/w/dist/bundle.md" (Described.document [("/w/a.md", "A")])
                  (store first) eq_refl eq_refl) as [Hs Hexit].
      split; [exact Hexit | exact Hs].
  - intros args first second.
    destruct (proj1 (rerun_writes_the_same_document P args MemFS.tree_a) eq_refl)
      as [Hsame Hstore].
    + intros here Hhere. injection Hhere as <-. split; [reflexivity|].
      split; [reflexivity|]. intros allFiles Hrd. injection Hrd as <-.
      eexists. split; reflexivity.
    + intros path Hpath. vm_compute in Hpath. destruct Hpath as [<- | []]. reflexivity.
    + split; [reflexivity|]. split; [exact Hsame|].
      destruct (Hstore "/w/combined.txt" (Described.document [("a.md", "A")])
                  (store first) eq_refl eq_refl) as [Hs Hexit].
      split; [exact Hexit | exact Hs].
Defined.

(** The claim as first worded fails when the output path lies inside the
    source directory, as with the default arguments: the first run's output
    is a candidate of the second run, which writes a longer document. *)
Lemma rerun_inside_source_counterexample :
  let P := MemFS.platform "/w" in
  outputPath_of P "/w" MemFS.argv = "/w/combined.md" /\
  sourcePath_of P "/w" MemFS.argv = "/w" /\
  (let first := Allowlist.run P MemFS.argv MemFS.tree_a in
   let second := Allowlist.run P MemFS.argv (store first) in
   exitCode first = 0%Z /\ exitCode second = 0%Z /\
   MemFS.lookup (store first) "/w/combined.md"
   = Some (MemFS.File (Described.document [("a.md", "A")])) /\
   MemFS.lookup (store second) "/w/combined.md"
   = Some (MemFS.File (Described.document
                         [("a.md", "A");
                          ("combined.md", Described.document [("a.md", "A")])])) /\
   MemFS.lookup (store second) "/w/combined.md"
   <> MemFS.lookup (store first) "/w/combined.md") /\
  (let first := Denylist.run P MemFS.argv MemFS.tree_a in
   let second := Denylist.run P MemFS.argv (store first) in
   exitCode first = 0%Z /\ exitCode second = 0%Z /\
   MemFS.lookup (store second) "/w/combined.md"
   <> MemFS.lookup (store first) "/w/combined.md").
Proof.
  vm_compute. repeat split; try reflexivity; intros H; discriminate H.
Qed.

(** * Further properties of the two scripts *)

(** ** What the denylist filter drops *)

Section SubstringFacts.

Lemma prefix_spec (p s : string) :
  String.prefix p s = true <-> exists post, s = p ++ post.
Proof.
  revert s. induction p as [|c p IH]; intros s.
  - split; [intros _; now exists s | now destruct s].
  - destruct s as [|d s]; cbn [String.prefix String.append].
    + split; [discriminate | intros [post H]; discriminate H].
    + destruct (Ascii.ascii_dec c d) as [<- | Hne].
      * rewrite IH. split; intros [post H]; exists post; [now rewrite H | now injection H].
      * split; [discriminate | intros [post H]; injection H as H _; now contradiction Hne].
Qed.

Lemma includes_spec (s sub : string) :
  JS.includes s sub = true <-> exists pre post, s = pre ++ sub ++ post.
Proof.
  induction s as [|c s IH]; cbn [JS.includes].
  - rewrite orb_false_r, prefix_spec. split.
    + intros [post H]. now exists "", post.
    + intros (pre & post & H). destruct pre as [|d pre]; [now exists post | discriminate H].
  - rewrite orb_true_iff, prefix_spec, IH. split.
    + intros [[post H] | (pre & post & H)].
      * now exists "", post.
      * exists (String c pre), post. cbn [String.append]. now rewrite H.
    + intros ([|d pre] & post & H).
      * left. now exists post.
      * right. cbn [String.append] in H. injection H as _ H. now exists pre, post.
Qed.

End SubstringFacts.

(** X1.  The folder test of [combine.ts] is a substring test on the parent
    path: an entry is taken to lie in an excluded folder exactly when its
    parent path contains [.git], [tmp], [node_modules], [dist] or [build]
    anywhere, also inside a longer folder name, and such an entry is never
    kept. *)
Theorem excluded_folder_is_by_substring (file : Dirent) :
  (Denylist.isExcludedFolder file = true <->
   exists folder pre post,
     In folder [".git"; "tmp"; "node_modules"; "dist"; "build"] /\
     parentPath file = pre ++ folder ++ post) /\
  (Denylist.isExcludedFolder file = true -> Denylist.keep file = false).
Proof.
  split.
  - unfold Denylist.isExcludedFolder. rewrite existsb_exists. split.
    + intros (folder & Hin & H). apply includes_spec in H.
      destruct H as (pre & post & H). now exists folder, pre, post.
    + intros (folder & pre & post & Hin & H). exists folder. split; [exact Hin|].
      apply includes_spec. now exists pre, post.
  - intros H. unfold Denylist.keep. now rewrite H.
Qed.

Lemma excluded_folder_is_by_substring_witness :
  Denylist.keep {| name := "guide.md"; parentPath := "/w/distribution"; isFile := true |}
  = false.
Proof.
  apply (proj2 (excluded_folder_is_by_substring _)).
  apply (proj1 (excluded_folder_is_by_substring _)).
  exists "dist", "/w/", "ribution". split; [cbn; tauto | reflexivity].
Defined.

Section RegexFacts.

Lemma search_spec (r : JS.regex) (s : string) :
  JS.search r s = true <-> exists pre t, s = pre ++ t /\ JS.match_here r t = true.
Proof.
  induction s as [|c s IH]; cbn [JS.search].
  - rewrite orb_false_r. split.
    + intros H. now exists "", "".
    + intros (pre & t & H & Hm). destruct pre; [|discriminate H].
      cbn [String.append] in H. now subst t.
  - rewrite orb_true_iff, IH. split.
    + intros [H | (pre & t & -> & Hm)].
      * now exists "", (String c s).
      * now exists (String c pre), t.
    + intros ([|d pre] & t & H & Hm); cbn [String.append] in H.
      * left. now subst t.
      * right. injection H as _ ->. now exists pre, t.
Qed.

Lemma match_here_star_unfold (a : JS.atom) (r : JS.regex) (s : string) :
  JS.match_here ((a, true) :: r) s
  = JS.match_here r s ||
    match s with
    | EmptyString => false
    | String c s' => JS.atom_matches a c && JS.match_here ((a, true) :: r) s'
    end.
Proof. destruct s; reflexivity. Qed.

Lemma match_here_star_tail (a : JS.atom) (r : JS.regex) (s : string) :
  JS.match_here ((a, true) :: r) s = true ->
  exists u t, s = u ++ t /\ JS.match_here r t = true.
Proof.
  induction s as [|c s IH]; rewrite match_here_star_unfold; intros H.
  - rewrite orb_false_r in H. now exists "", "".
  - apply orb_true_iff in H. destruct H as [H | H].
    + now exists "", (String c s).
    + apply andb_true_iff in H. destruct H as [_ H].
      destruct (IH H) as (u & t & -> & Ht). now exists (String c u), t.
Qed.

(** In a search, a leading starred atom changes nothing. *)
Lemma search_leading_star (a : JS.atom) (r : JS.regex) (s : string) :
  JS.search ((a, true) :: r) s = true <-> JS.search r s = true.
Proof.
  rewrite !search_spec. split.
  - intros (pre & t & -> & H). destruct (match_here_star_tail a r t H) as (u & v & -> & Hv).
    exists (pre ++ u), v. now rewrite append_assoc.
  - intros (pre & t & -> & H). exists pre, t. split; [reflexivity|].
    rewrite match_here_star_unfold. now rewrite H.
Qed.

Lemma match_here_lit (c : ascii) (r : JS.regex) (s : string) :
  JS.match_here ((JS.Lit c, false) :: r) s = true <->
  exists s', s = String c s' /\ JS.match_here r s' = true.
Proof.
  destruct s as [|d s]; cbn [JS.match_here JS.atom_matches].
  - split; [discriminate | intros (s' & H & _); discriminate H].
  - rewrite andb_true_iff, Ascii.eqb_eq. split.
    + intros [-> H]. now exists s.
    + intros (s' & H & Hm). injection H as -> ->. now split.
Qed.

Lemma match_here_any (r : JS.regex) (s : string) :
  JS.match_here ((JS.AnyChar, false) :: r) s = true <->
  exists c s', s = String c s' /\ JS.line_terminator c = false /\ JS.match_here r s' = true.
Proof.
  destruct s as [|d s]; cbn [JS.match_here JS.atom_matches].
  - split; [discriminate | intros (c & s' & H & _); discriminate H].
  - rewrite andb_true_iff, negb_true_iff. split.
    + intros [Hd H]. now exists d, s.
    + intros (c & s' & H & Hc & Hm). injection H as -> ->. now split.
Qed.

End RegexFacts.

(** Takes a match of a starless expression apart, atom by atom. *)
Ltac match_apart H :=
  repeat first
    [ apply match_here_lit in H; destruct H as (? & -> & H)
    | apply match_here_any in H; destruct H as (? & ? & -> & ? & H) ].

(** Builds a match of a starless expression on a string that spells it. *)
Ltac match_build :=
  repeat first
    [ apply match_here_lit; eexists; split; [reflexivity|]
    | apply match_here_any; do 2 eexists; split; [reflexivity|]; split; [eassumption|] ];
  reflexivity.

(** X2.  On ASCII file names the file-name test of [combine.ts] is an
    occurrence test: a name is taken to match a pattern exactly when,
    somewhere in the name, one character other than the line feed and the
    carriage return is followed by [DS_Store], [log] or [tmp], or stands
    between [package-lock] and [json], [yarn] and [lock], or [bun] and
    [lockb].  Neither the start nor the end of the name is tied to the
    pattern, and the dot of a pattern stands for any such character. *)
Theorem excluded_file_is_by_occurrence (file : Dirent)
    (Hascii : JS.ascii_only (name file) = true) :
  Denylist.isExcludedFile file = true <->
  exists pre c post,
    JS.line_terminator c = false /\
    (name file = pre ++ String c ("DS_Store" ++ post) \/
     name file = pre ++ String c ("log" ++ post) \/
     name file = pre ++ String c ("tmp" ++ post) \/
     name file = pre ++ "package-lock" ++ String c ("json" ++ post) \/
     name file = pre ++ "yarn" ++ String c ("lock" ++ post) \/
     name file = pre ++ "bun" ++ String c ("lockb" ++ post)).
Proof.
  clear Hascii. destruct file as [n parent kind]. cbn [name].
  unfold Denylist.isExcludedFile, Denylist.excludeFiles, Denylist.name_matches.
  cbn [existsb name]. rewrite orb_false_r.
  repeat match goal with
    | |- context [JS.RegExp ?p] =>
        let r := eval vm_compute in (JS.RegExp p) in
        change (JS.RegExp p) with r
    end.
  cbv iota beta.
  rewrite !orb_true_iff, !search_leading_star, !search_spec.
  split.
  - intros [(pre & t & -> & H) | [(pre & t & -> & H) | [(pre & t & -> & H)
            | [(pre & t & -> & H) | [(pre & t & -> & H) | (pre & t & -> & H)]]]]];
      match_apart H;
      match goal with Hc : JS.line_terminator ?c = false |- _ =>
        exists pre, c; eexists; (split; [exact Hc|]) end.
    + left. reflexivity.
    + right; left. reflexivity.
    + do 2 right; left. reflexivity.
    + do 3 right; left. reflexivity.
    + do 4 right; left. reflexivity.
    + do 5 right. reflexivity.
  - intros (pre & c & post & Hc & [H | [H | [H | [H | [H | H]]]]]); subst n.
    + left. exists pre. eexists. split; [reflexivity|]. match_build.
    + right; left. exists pre. eexists. split; [reflexivity|]. match_build.
    + do 2 right; left. exists pre. eexists. split; [reflexivity|]. match_build.
    + do 3 right; left. exists pre. eexists. split; [reflexivity|]. match_build.
    + do 4 right; left. exists pre. eexists. split; [reflexivity|]. match_build.
    + do 5 right. exists pre. eexists. split; [reflexivity|]. match_build.
Qed.

Lemma excluded_file_is_by_occurrence_witness :
  Denylist.keep {| name := "changelog.md"; parentPath := "/w"; isFile := true |} = false.
Proof.
  assert (H : Denylist.isExcludedFile
                {| name := "changelog.md"; parentPath := "/w"; isFile := true |} = true).
  { apply excluded_file_is_by_occurrence; [reflexivity|].
    exists "chang", "e"%char, ".md".
    split; [reflexivity|]. right; left. reflexivity. }
  unfold Denylist.keep. rewrite H. reflexivity.
Defined.

(** X3.  When the resolved source path itself contains one of the excluded
    folder names, every entry of the walk has that name in its parent path
    and is dropped: the denylist script finds no candidate, prints the
    warning and ends with exit code 0 without reading or writing anything,
    whatever the directory holds. *)
Theorem excluded_source_path_combines_nothing
    {FS : Type} (P : Platform FS) (args : list string) (s : FS) (here : string) (st : Stats)
    (allFiles : list Dirent) (folder pre post : string)
    (Hcwd : cwd P = Ok here)
    (Hex : exists_ P s (sourcePath_of P here args) = true)
    (Hst : stat P s (sourcePath_of P here args) = Ok st)
    (Hdir : isDirectory st = true)
    (Hrd : readdirWithFileTypes P s (sourcePath_of P here args) = Ok allFiles)
    (Hbelow : Forall (fun entry => exists rest,
                          parentPath entry = sourcePath_of P here args ++ rest) allFiles)
    (Hfolder : In folder Denylist.excludeFolders)
    (Hpath : sourcePath_of P here args = pre ++ folder ++ post) :
  let sourcePath := sourcePath_of P here args in
  Denylist.files_of allFiles = [] /\
  Denylist.run P args s
  = {| exitCode := 0; store := s;
       events := [searching sourcePath; FsExists sourcePath; FsStat sourcePath;
                  FsReaddir sourcePath; no_files sourcePath] |}.
Proof.
  intros sourcePath.
  assert (Hnil : Denylist.files_of allFiles = []).
  { unfold Denylist.files_of. rewrite sort_same_key by reflexivity.
    clear Hrd.
    induction Hbelow as [|entry allFiles' [rest Hparent] _ IH]; [reflexivity|].
    cbn [filter].
    assert (Hdrop : Denylist.isExcludedFolder entry = true).
    { unfold Denylist.isExcludedFolder. apply existsb_exists. exists folder.
      split; [exact Hfolder|]. apply includes_spec.
      exists pre, (post ++ rest). rewrite Hparent, Hpath. now rewrite !append_assoc. }
    unfold Denylist.keep at 1. rewrite Hdrop. cbn [negb andb]. exact IH. }
  split; [exact Hnil|].
  exact (deny_run_no_candidates P args s here Hcwd st Hex Hst Hdir allFiles Hrd Hnil).
Qed.

Lemma excluded_source_path_combines_nothing_witness :
  let tree := [("/home/u/build", MemFS.Directory);
               ("/home/u/build/a.md", MemFS.File "A")] in
  exitCode (Denylist.run (MemFS.platform "/home/u/build") MemFS.argv tree) = 0%Z /\
  store (Denylist.run (MemFS.platform "/home/u/build") MemFS.argv tree) = tree.
Proof.
  intros tree.
  destruct (excluded_source_path_combines_nothing
              (MemFS.platform "/home/u/build") MemFS.argv tree "/home/u/build"
              {| isDirectory := true |}
              [{| name := "a.md"; parentPath := "/home/u/build"; isFile := true |}]
              "build" "/home/u/" ""
              eq_refl eq_refl eq_refl eq_refl eq_refl) as [_ Hrun].
  - repeat constructor. now exists "".
  - cbn. tauto.
  - reflexivity.
  - rewrite Hrun. split; reflexivity.
Defined.

(** ** The order of the candidates *)

Section OrderFacts.

Lemma string_compare_trans (a b c : string) :
  (a ?= b)%string <> Gt -> (b ?= c)%string <> Gt -> (a ?= c)%string <> Gt.
Proof.
  revert b c. induction a as [|x a IH]; intros [|y b] [|z c]; cbn [String.compare];
    try congruence.
  unfold Ascii.compare.
  destruct (N.compare_spec (N_of_ascii x) (N_of_ascii y)) as [Exy | Exy | Exy];
    destruct (N.compare_spec (N_of_ascii y) (N_of_ascii z)) as [Eyz | Eyz | Eyz];
    try congruence;
    destruct (N.compare_spec (N_of_ascii x) (N_of_ascii z)) as [Exz | Exz | Exz];
    try congruence; try lia.
  apply IH.
Qed.

Lemma string_leb_trans (a b c : string) :
  (a <=? b)%string = true -> (b <=? c)%string = true -> (a <=? c)%string = true.
Proof.
  unfold String.leb. intros Hab Hbc.
  assert (H : (a ?= c)%string <> Gt).
  { apply (string_compare_trans a b c).
    - intros E. now rewrite E in Hab.
    - intros E. now rewrite E in Hbc. }
  now destruct (a ?= c)%string.
Qed.

Lemma permutation_filter {A : Type} (f : A -> bool) (l1 l2 : list A) :
  Permutation l1 l2 -> Permutation (filter f l1) (filter f l2).
Proof.
  induction 1 as [|x l1 l2 _ IH|x y l|l1 l2 l3 _ IH1 _ IH2]; cbn [filter].
  - constructor.
  - destruct (f x); [now constructor | exact IH].
  - destruct (f x), (f y); try reflexivity. constructor.
  - now transitivity (filter f l2).
Qed.

(** Two ascending lists of strings with the same elements are the same
    list. *)
Lemma ascending_unique (l1 l2 : list string) :
  Sorted (fun a b => (a <=? b)%string = true) l1 ->
  Sorted (fun a b => (a <=? b)%string = true) l2 ->
  Permutation l1 l2 -> l1 = l2.
Proof.
  intros S1 S2.
  apply Sorted_StronglySorted in S1; [|intros a b c; apply string_leb_trans].
  apply Sorted_StronglySorted in S2; [|intros a b c; apply string_leb_trans].
  revert l2 S2. induction S1 as [|x l1 S1 IH Hx]; intros l2 S2 Hperm.
  - now apply Permutation_nil in Hperm.
  - destruct S2 as [|y l2 S2 Hy].
    + symmetry in Hperm. now apply Permutation_nil in Hperm.
    + assert (Hxy : x = y).
      { assert (Hin1 : In x (y :: l2)) by (apply (Permutation_in x Hperm); now left).
        assert (Hin2 : In y (x :: l1))
          by (apply (Permutation_in y (Permutation_sym Hperm)); now left).
        destruct Hin1 as [E | Hin1]; [now symmetry|].
        destruct Hin2 as [E | Hin2]; [exact E|].
        rewrite Forall_forall in Hx, Hy.
        apply String.leb_antisym; [now apply Hx | now apply Hy]. }
      subst y. f_equal. apply IH; [exact S2|].
      now apply Permutation_cons_inv in Hperm.
Qed.

End OrderFacts.

(** X4.  For a walk of ASCII paths, the candidates of [part_000] are the
    markdown paths of the walk in ascending code-unit order, each as often
    as the walk lists it; two such walks that list the same paths in
    different orders give the same candidate list, so the order of the
    blocks does not depend on the order of the walk. *)
Theorem allowlist_candidates_ignore_walk_order
    (walk walk' : list string)
    (Hascii : Forall (fun p => JS.ascii_only p = true) walk)
    (Hsame : Permutation walk walk') :
  Sorted (fun a b => (a <=? b)%string = true) (Allowlist.markdownFiles_of walk) /\
  Permutation (Allowlist.markdownFiles_of walk) (filter Allowlist.isMarkdown walk) /\
  Allowlist.markdownFiles_of walk = Allowlist.markdownFiles_of walk'.
Proof.
  clear Hascii.
  split; [apply (sort_sorted (fun s => s))|]. split; [apply sort_perm|].
  apply ascending_unique; try apply (sort_sorted (fun s => s)).
  unfold Allowlist.markdownFiles_of.
  rewrite !sort_perm. now apply permutation_filter.
Qed.

Lemma allowlist_candidates_ignore_walk_order_witness :
  Allowlist.markdownFiles_of ["z.md"; "b.txt"; "a.md"]
  = Allowlist.markdownFiles_of ["a.md"; "b.txt"; "z.md"].
Proof.
  refine (proj2 (proj2 (allowlist_candidates_ignore_walk_order
                          ["z.md"; "b.txt"; "a.md"] ["a.md"; "b.txt"; "z.md"] _
                          (Permutation_rev ["z.md"; "b.txt"; "a.md"])))).
  repeat constructor.
Defined.

(** X5.  The candidates of [combine.ts] are the kept entries in the order
    of the walk: its [sort()] moves nothing, since all directory entries
    compare equal.  A walk in the opposite order gives the candidates in the
    opposite order. *)
Theorem denylist_candidates_keep_walk_order (walk : list Dirent) :
  Denylist.files_of walk = filter Denylist.keep walk /\
  Denylist.files_of (rev walk) = rev (Denylist.files_of walk).
Proof.
  assert (H : forall l, Denylist.files_of l = filter Denylist.keep l).
  { intros l. unfold Denylist.files_of. now apply sort_same_key. }
  split; [apply H|]. rewrite !H. apply filter_rev.
Qed.

(** ** The trace of a run *)

Section MoreTraceFacts.
Context {FS : Type} (P : Platform FS).
Local Open Scope list_scope.

Lemma errors_app (t1 t2 : list Event) :
  Described.errors (t1 ++ t2) = Described.errors t1 ++ Described.errors t2.
Proof. apply flat_map_app. Qed.

Lemma allow_loop_errors (sp : string) (files : list string) :
  Described.errors (allow_loop_events P sp files) = [].
Proof. induction files as [|p files IH]; [reflexivity | exact IH]. Qed.

Lemma deny_loop_errors (files : list Dirent) :
  Described.errors (deny_loop_events P files) = [].
Proof. induction files as [|p files IH]; [reflexivity | exact IH]. Qed.

Lemma errors_report (e : thrown) : Described.errors [IO.report e] <> [].
Proof. now destruct e. Qed.

Lemma reads_report (e : thrown) : Described.reads [IO.report e] = [].
Proof. now destruct e. Qed.

End MoreTraceFacts.

(** X6.  In a run that succeeds, the candidates are read one by one in
    candidate order, each once, and only after the last read comes the one
    write call, followed by nothing but the closing message: the exit code
    is 0 and the store is what the write returned. *)
Theorem successful_run_reads_then_writes
    {FS : Type} (P : Platform FS) (args : list string) (s s' : FS) (here : string) (st : Stats)
    (contents : list string)
    (Hcwd : cwd P = Ok here)
    (Hex : exists_ P s (sourcePath_of P here args) = true)
    (Hst : stat P s (sourcePath_of P here args) = Ok st)
    (Hdir : isDirectory st = true) :
  let sourcePath := sourcePath_of P here args in
  let outputPath := outputPath_of P here args in
  (forall allFiles,
      readdir P s sourcePath = Ok allFiles ->
      let markdownFiles := Allowlist.markdownFiles_of allFiles in
      let document := Described.document (combine markdownFiles contents) in
      markdownFiles <> [] ->
      Forall2 (fun p c => text P s (join P sourcePath p) = Ok c) markdownFiles contents ->
      write P s outputPath document = Ok s' ->
      let outcome := Allowlist.run P args s in
      exitCode outcome = 0%Z /\ store outcome = s' /\
      exists t,
        events outcome = (t ++ [BunWrite outputPath document; success outputPath])%list /\
        Described.reads t = map (join P sourcePath) markdownFiles /\
        Described.writes t = []) /\
  (forall allFiles,
      readdirWithFileTypes P s sourcePath = Ok allFiles ->
      let files := Denylist.files_of allFiles in
      let document := Described.document (deny_blocks P files contents) in
      files <> [] ->
      Forall2 (fun f c => text P s (join P (parentPath f) (name f)) = Ok c) files contents ->
      write P s outputPath document = Ok s' ->
      let outcome := Denylist.run P args s in
      exitCode outcome = 0%Z /\ store outcome = s' /\
      exists t,
        events outcome = (t ++ [BunWrite outputPath document; success outputPath])%list /\
        Described.reads t = map (fun f => join P (parentPath f) (name f)) files /\
        Described.writes t = []).
Proof.
  intros sourcePath outputPath. split.
  - intros allFiles Hrd markdownFiles document Hne Hok Hw outcome. unfold outcome.
    rewrite (allow_run_success P args s here Hcwd st Hex Hst Hdir allFiles Hrd
               contents Hne Hok s' Hw).
    split; [reflexivity|]. split; [reflexivity|].
    eexists. split; [cbn [events]; rewrite app_assoc; reflexivity|].
    rewrite reads_app, writes_app, allow_loop_reads, allow_loop_writes. now split.
  - intros allFiles Hrd files document Hne Hok Hw outcome. unfold outcome.
    rewrite (deny_run_success P args s here Hcwd st Hex Hst Hdir allFiles Hrd
               contents Hne Hok s' Hw).
    split; [reflexivity|]. split; [reflexivity|].
    eexists. split; [cbn [events]; rewrite app_assoc; reflexivity|].
    rewrite reads_app, writes_app, deny_loop_reads, deny_loop_writes. now split.
Qed.

Lemma successful_run_reads_then_writes_witness :
  let outcome := Denylist.run (MemFS.platform "/w") MemFS.argv MemFS.tree_zba in
  exitCode outcome = 0%Z /\
  Described.reads (events outcome) = ["/w/z.md"; "/w/b.txt"; "/w/a.md"].
Proof.
  intros outcome.
  destruct (successful_run_reads_then_writes
              (MemFS.platform "/w") MemFS.argv MemFS.tree_zba
              (store outcome) "/w" {| isDirectory := true |} ["Z"; "B"; "A"]
              eq_refl eq_refl eq_refl eq_refl) as [_ Hdeny].
  destruct (Hdeny (MemFS.list_dirents MemFS.tree_zba "/w") eq_refl)
    as (Hexit & _ & t & Hevents & Hreads & _).
  - vm_compute. discriminate.
  - vm_compute. repeat constructor.
  - reflexivity.
  - split; [exact Hexit|]. fold outcome in Hevents. rewrite Hevents, reads_app, Hreads.
    reflexivity.
Defined.

(** X7.  A read that raises ends the run there: the candidates before it
    were read in order, the failing one is the last path handed to the read
    primitive, the candidates after it are never read, nothing is written,
    and the report printed last is that of the value the read raised. *)
Theorem first_failing_read_stops_the_run
    {FS : Type} (P : Platform FS) (args : list string) (s : FS) (here : string) (st : Stats)
    (cb : list string) (e : thrown)
    (Hcwd : cwd P = Ok here)
    (Hex : exists_ P s (sourcePath_of P here args) = true)
    (Hst : stat P s (sourcePath_of P here args) = Ok st)
    (Hdir : isDirectory st = true) :
  let sourcePath := sourcePath_of P here args in
  (forall allFiles before relativePath after,
      readdir P s sourcePath = Ok allFiles ->
      Allowlist.markdownFiles_of allFiles = (before ++ relativePath :: after)%list ->
      Forall2 (fun p c => text P s (join P sourcePath p) = Ok c) before cb ->
      text P s (join P sourcePath relativePath) = Throw e ->
      let outcome := Allowlist.run P args s in
      exitCode outcome = 1%Z /\ store outcome = s /\
      Described.reads (events outcome)
      = map (join P sourcePath) (before ++ [relativePath])%list /\
      Described.writes (events outcome) = [] /\
      exists t, events outcome = (t ++ [IO.report e])%list) /\
  (forall allFiles before fileInfo after,
      readdirWithFileTypes P s sourcePath = Ok allFiles ->
      Denylist.files_of allFiles = (before ++ fileInfo :: after)%list ->
      Forall2 (fun f c => text P s (join P (parentPath f) (name f)) = Ok c) before cb ->
      text P s (join P (parentPath fileInfo) (name fileInfo)) = Throw e ->
      let outcome := Denylist.run P args s in
      exitCode outcome = 1%Z /\ store outcome = s /\
      Described.reads (events outcome)
      = map (fun f => join P (parentPath f) (name f)) (before ++ [fileInfo])%list /\
      Described.writes (events outcome) = [] /\
      exists t, events outcome = (t ++ [IO.report e])%list).
Proof.
  intros sourcePath. split.
  - intros allFiles before p after Hrd Hsplit Hok Hp outcome. unfold outcome.
    rewrite (allow_run_read_throws P args s here Hcwd st Hex Hst Hdir allFiles Hrd
               before after cb p e Hsplit Hok Hp).
    cbn [exitCode store events]. split; [reflexivity|]. split; [reflexivity|].
    rewrite !reads_app, !writes_app, allow_loop_reads, allow_loop_writes, map_app.
    split; [now destruct e|]. split; [now destruct e|].
    exists ([searching sourcePath; FsExists sourcePath; FsStat sourcePath;
             FsReaddir sourcePath;
             found_files (List.length (Allowlist.markdownFiles_of allFiles))]
            ++ allow_loop_events P sourcePath before
            ++ [combining p; FileText (join P sourcePath p)])%list.
    now rewrite <- !app_assoc.
  - intros allFiles before f after Hrd Hsplit Hok Hp outcome. unfold outcome.
    rewrite (deny_run_read_throws P args s here Hcwd st Hex Hst Hdir allFiles Hrd
               before after cb f e Hsplit Hok Hp).
    cbn [exitCode store events]. split; [reflexivity|]. split; [reflexivity|].
    rewrite !reads_app, !writes_app, deny_loop_reads, deny_loop_writes, map_app.
    split; [now destruct e|]. split; [now destruct e|].
    exists ([searching sourcePath; FsExists sourcePath; FsStat sourcePath;
             FsReaddir sourcePath;
             found_files (List.length (Denylist.files_of allFiles))]
            ++ deny_loop_events P before
            ++ [combining (deny_fullPath P f); FileText (deny_fullPath P f)])%list.
    now rewrite <- !app_assoc.
Qed.

Lemma first_failing_read_stops_the_run_witness :
  let tree := [("/w", MemFS.Directory); ("/w/a.md", MemFS.File "A");
               ("/w/notes.md", MemFS.Directory); ("/w/z.md", MemFS.File "Z")] in
  let outcome := Allowlist.run (MemFS.platform "/w") MemFS.argv tree in
  exitCode outcome = 1%Z /\
  Described.reads (events outcome) = ["/w/a.md"; "/w/notes.md"].
Proof.
  intros tree outcome.
  destruct (first_failing_read_stops_the_run
              (MemFS.platform "/w") MemFS.argv tree "/w" {| isDirectory := true |} ["A"]
              (ErrorObject "EISDIR: illegal operation on a directory, read '/w/notes.md'")
              eq_refl eq_refl eq_refl eq_refl) as [Hallow _].
  destruct (Hallow ["a.md"; "notes.md"; "z.md"] ["a.md"] "notes.md" ["z.md"]
              eq_refl eq_refl)
    as (Hexit & _ & Hreads & _).
  - repeat constructor.
  - reflexivity.
  - split; [exact Hexit | exact Hreads].
Defined.

(** ** Exit code, report and write of any run *)

Section AnyRun.
Context {FS : Type} (P : Platform FS) (args : list string) (s : FS).
Local Open Scope list_scope.

Let reported (o : Outcome FS) : Prop :=
  (exitCode o = 0%Z /\ Described.errors (events o) = []) \/
  (exitCode o = 1%Z /\
   exists t e, events o = t ++ [IO.report e] /\ Described.errors t = []).

Ltac quiet_case :=
  left; split; [reflexivity|]; cbn [events];
  rewrite ?errors_app, ?allow_loop_errors, ?deny_loop_errors; reflexivity.

Ltac report_case t e :=
  right; split; [reflexivity|]; exists t, e;
  split;
  [ cbn [events]; rewrite <- ?app_assoc; reflexivity
  | rewrite ?errors_app, ?allow_loop_errors, ?deny_loop_errors; reflexivity ].

Lemma allow_reported : reported (Allowlist.run P args s).
Proof.
  apply allow_run_cases.
  - intros e _. report_case (@nil Event) e.
  - intros here _ sp _. report_case [searching sp; FsExists sp] (not_found sp).
  - intros here e _ sp _ _. report_case [searching sp; FsExists sp; FsStat sp] e.
  - intros here st _ sp _ _ _.
    report_case [searching sp; FsExists sp; FsStat sp] (not_a_directory sp).
  - intros here st e _ sp _ _ _ _.
    report_case [searching sp; FsExists sp; FsStat sp; FsReaddir sp] e.
  - intros. quiet_case.
  - intros here st allFiles before p after cb e _ sp _ _ _ _ _ _ _.
    report_case ([searching sp; FsExists sp; FsStat sp; FsReaddir sp;
                  found_files (List.length (Allowlist.markdownFiles_of allFiles))]
                 ++ allow_loop_events P sp before
                 ++ [combining p; FileText (join P sp p)]) e.
  - intros here st allFiles contents e _ sp op doc _ _ _ _ _ _ _.
    report_case ([searching sp; FsExists sp; FsStat sp; FsReaddir sp;
                  found_files (List.length (Allowlist.markdownFiles_of allFiles))]
                 ++ allow_loop_events P sp (Allowlist.markdownFiles_of allFiles)
                 ++ [BunWrite op doc]) e.
  - intros. quiet_case.
Qed.

Lemma deny_reported : reported (Denylist.run P args s).
Proof.
  apply deny_run_cases.
  - intros e _. report_case (@nil Event) e.
  - intros here _ sp _. report_case [searching sp; FsExists sp] (not_found sp).
  - intros here e _ sp _ _. report_case [searching sp; FsExists sp; FsStat sp] e.
  - intros here st _ sp _ _ _.
    report_case [searching sp; FsExists sp; FsStat sp] (not_a_directory sp).
  - intros here st e _ sp _ _ _ _.
    report_case [searching sp; FsExists sp; FsStat sp; FsReaddir sp] e.
  - intros. quiet_case.
  - intros here st allFiles before p after cb e _ sp _ _ _ _ _ _ _.
    report_case ([searching sp; FsExists sp; FsStat sp; FsReaddir sp;
                  found_files (List.length (Denylist.files_of allFiles))]
                 ++ deny_loop_events P before
                 ++ [combining (deny_fullPath P p); FileText (deny_fullPath P p)]) e.
  - intros here st allFiles contents e _ sp op doc _ _ _ _ _ _ _.
    report_case ([searching sp; FsExists sp; FsStat sp; FsReaddir sp;
                  found_files (List.length (Denylist.files_of allFiles))]
                 ++ deny_loop_events P (Denylist.files_of allFiles)
                 ++ [BunWrite op doc]) e.
  - intros. quiet_case.
Qed.

Let written (o : Outcome FS) : Prop :=
  (Described.writes (events o) = [] /\ store o = s) \/
  (exists here doc,
      cwd P = Ok here /\
      Described.writes (events o) = [(outputPath_of P here args, doc)] /\
      ((exitCode o = 0%Z /\ write P s (outputPath_of P here args) doc = Ok (store o)) \/
       (exitCode o = 1%Z /\ store o = s /\
        exists e, write P s (outputPath_of P here args) doc = Throw e))).

Ltac unwritten_case :=
  intros; left; cbn [events store];
  repeat match goal with |- context [IO.report ?e] => is_var e; destruct e end;
  rewrite ?writes_app, ?allow_loop_writes, ?deny_loop_writes; split; reflexivity.

Lemma allow_written : written (Allowlist.run P args s).
Proof.
  apply allow_run_cases; try unwritten_case.
  - intros here st allFiles contents e Hcwd sp op doc _ _ _ _ _ _ Hw.
    right. exists here, doc. split; [exact Hcwd|]. cbn [events store exitCode].
    rewrite !writes_app, allow_loop_writes. split; [now destruct e|].
    right. split; [reflexivity|]. split; [reflexivity|]. now exists e.
  - intros here st allFiles contents s' Hcwd sp op doc _ _ _ _ _ _ Hw.
    right. exists here, doc. split; [exact Hcwd|]. cbn [events store exitCode].
    rewrite !writes_app, allow_loop_writes. split; [reflexivity|].
    left. now split.
Qed.

Lemma deny_written : written (Denylist.run P args s).
Proof.
  apply deny_run_cases; try unwritten_case.
  - intros here st allFiles contents e Hcwd sp op doc _ _ _ _ _ _ Hw.
    right. exists here, doc. split; [exact Hcwd|]. cbn [events store exitCode].
    rewrite !writes_app, deny_loop_writes. split; [now destruct e|].
    right. split; [reflexivity|]. split; [reflexivity|]. now exists e.
  - intros here st allFiles contents s' Hcwd sp op doc _ _ _ _ _ _ Hw.
    right. exists here, doc. split; [exact Hcwd|]. cbn [events store exitCode].
    rewrite !writes_app, deny_loop_writes. split; [reflexivity|].
    left. now split.
Qed.

End AnyRun.

(** X8.  Every run of either script ends in one of two ways.  Either the
    exit code is 0 and the run made no [console.error] call (the warning of
    a run without candidates is a [console.warn] call), or the exit code is
    1 and the trace ends with the one [console.error] call of the run, the
    [catch] block's rendering of the raised value. *)
Theorem exit_code_follows_the_report
    {FS : Type} (P : Platform FS) (args : list string) (s : FS) (outcome : Outcome FS)
    (Hwhich : outcome = Allowlist.run P args s \/ outcome = Denylist.run P args s) :
  (exitCode outcome = 0%Z /\ Described.errors (events outcome) = []) \/
  (exitCode outcome = 1%Z /\
   exists t e, events outcome = (t ++ [IO.report e])%list /\ Described.errors t = []).
Proof.
  destruct Hwhich as [-> | ->]; [apply allow_reported | apply deny_reported].
Qed.

Lemma exit_code_follows_the_report_witness :
  let outcome := Denylist.run (MemFS.platform "/w") (MemFS.argv_src "/nope") MemFS.tree_a in
  exitCode outcome = 1%Z /\ Described.errors (events outcome) <> [].
Proof.
  intros outcome.
  destruct (exit_code_follows_the_report (MemFS.platform "/w") (MemFS.argv_src "/nope")
              MemFS.tree_a outcome (or_intror eq_refl))
    as [[Hexit _] | (Hexit & t & e & Hevents & _)].
  - discriminate Hexit.
  - split; [exact Hexit|]. rewrite Hevents, errors_app.
    intros H. apply app_eq_nil in H. now apply (errors_report e).
Defined.

(** X9.  Every run of either script calls the write primitive at most once,
    and only on the resolved output path.  Without a write call the store is
    left as it was.  With one, either the call succeeded, the exit code is 0
    and the store is what the call returned, or it raised, the exit code is
    1 and the store is left as it was. *)
Theorem at_most_one_write_on_the_output_path
    {FS : Type} (P : Platform FS) (args : list string) (s : FS) (outcome : Outcome FS)
    (Hwhich : outcome = Allowlist.run P args s \/ outcome = Denylist.run P args s) :
  (Described.writes (events outcome) = [] /\ store outcome = s) \/
  (exists here doc,
      cwd P = Ok here /\
      Described.writes (events outcome) = [(outputPath_of P here args, doc)] /\
      ((exitCode outcome = 0%Z /\
        write P s (outputPath_of P here args) doc = Ok (store outcome)) \/
       (exitCode outcome = 1%Z /\ store outcome = s /\
        exists e, write P s (outputPath_of P here args) doc = Throw e))).
Proof.
  destruct Hwhich as [-> | ->]; [apply allow_written | apply deny_written].
Qed.

Lemma at_most_one_write_on_the_output_path_witness :
  let outcome :=
    Allowlist.run (MemFS.platform "/w") (MemFS.argv_out "/w/notes.md") MemFS.tree_dir in
  Described.writes (events outcome) = [] /\ store outcome = MemFS.tree_dir.
Proof.
  intros outcome.
  destruct (at_most_one_write_on_the_output_path (MemFS.platform "/w")
              (MemFS.argv_out "/w/notes.md") MemFS.tree_dir outcome (or_introl eq_refl))
    as [H | (here & doc & _ & H & _)].
  - exact H.
  - discriminate H.
Defined.

(** ** What is read *)

Section ReadFacts.
Context {FS : Type} (P : Platform FS) (args : list string) (s : FS).
Local Open Scope list_scope.

Let allow_candidate (path : string) : Prop :=
  exists here allFiles relativePath,
    cwd P = Ok here /\
    readdir P s (sourcePath_of P here args) = Ok allFiles /\
    In relativePath allFiles /\
    Allowlist.isMarkdown relativePath = true /\
    path = join P (sourcePath_of P here args) relativePath.

Let deny_candidate (path : string) : Prop :=
  exists here allFiles entry,
    cwd P = Ok here /\
    readdirWithFileTypes P s (sourcePath_of P here args) = Ok allFiles /\
    In entry allFiles /\
    isFile entry = true /\
    Denylist.isExcludedFolder entry = false /\
    Denylist.isExcludedFile entry = false /\
    path = join P (parentPath entry) (name entry).

Lemma allow_candidate_of (here : string) (allFiles : list string) (p : string) :
  cwd P = Ok here ->
  readdir P s (sourcePath_of P here args) = Ok allFiles ->
  In p (Allowlist.markdownFiles_of allFiles) ->
  allow_candidate (join P (sourcePath_of P here args) p).
Proof.
  intros Hcwd Hrd Hin. unfold Allowlist.markdownFiles_of in Hin.
  apply sort_In, filter_In in Hin. destruct Hin as [Hin Hmd].
  now exists here, allFiles, p.
Qed.

Lemma deny_candidate_of (here : string) (allFiles : list Dirent) (entry : Dirent) :
  cwd P = Ok here ->
  readdirWithFileTypes P s (sourcePath_of P here args) = Ok allFiles ->
  In entry (Denylist.files_of allFiles) ->
  deny_candidate (deny_fullPath P entry).
Proof.
  intros Hcwd Hrd Hin. unfold Denylist.files_of in Hin.
  apply sort_In, filter_In in Hin. destruct Hin as [Hin Hkeep].
  unfold Denylist.keep in Hkeep.
  apply andb_true_iff in Hkeep. destruct Hkeep as [Hkeep Hfile].
  apply andb_true_iff in Hkeep. destruct Hkeep as [Hfolder Hname].
  apply negb_true_iff in Hfolder, Hname.
  exists here, allFiles, entry. repeat split; assumption.
Qed.

Ltac unread_case :=
  intros;
  repeat match goal with H : context [IO.report ?e] |- _ => is_var e; destruct e end;
  match goal with H : In _ (Described.reads _) |- _ => cbn in H; contradiction end.

Lemma allow_reads_candidates :
  forall path, In path (Described.reads (events (Allowlist.run P args s))) ->
               allow_candidate path.
Proof.
  apply allow_run_cases; try unread_case.
  - intros here st allFiles before p after cb e Hcwd sp _ _ _ Hrd Hsplit _ _ path Hin.
    cbn [events] in Hin. rewrite !reads_app, allow_loop_reads in Hin.
    change (Described.reads [combining p; FileText (join P sp p); IO.report e])
      with (join P sp p :: Described.reads [IO.report e]) in Hin.
    rewrite reads_report in Hin. cbn in Hin.
    change (map (join P sp) before ++ [join P sp p])
      with (map (join P sp) before ++ map (join P sp) [p]) in Hin.
    rewrite <- map_app in Hin. apply in_map_iff in Hin. destruct Hin as (q & <- & Hq).
    apply (allow_candidate_of here allFiles q Hcwd Hrd). rewrite Hsplit.
    apply in_app_or in Hq. apply in_or_app.
    destruct Hq as [Hq | [<- | []]]; [now left | right; now left].
  - intros here st allFiles contents e Hcwd sp op doc _ _ _ Hrd _ _ _ path Hin.
    cbn [events] in Hin. rewrite !reads_app, allow_loop_reads in Hin.
    change (Described.reads [BunWrite op doc; IO.report e])
      with (Described.reads [IO.report e]) in Hin.
    rewrite reads_report, app_nil_r in Hin. cbn in Hin.
    apply in_map_iff in Hin. destruct Hin as (q & <- & Hq).
    now apply (allow_candidate_of here allFiles q Hcwd Hrd).
  - intros here st allFiles contents s' Hcwd sp op doc _ _ _ Hrd _ _ _ path Hin.
    cbn [events] in Hin. rewrite !reads_app, allow_loop_reads in Hin.
    cbn in Hin. rewrite app_nil_r in Hin.
    apply in_map_iff in Hin. destruct Hin as (q & <- & Hq).
    now apply (allow_candidate_of here allFiles q Hcwd Hrd).
Qed.

Lemma deny_reads_candidates :
  forall path, In path (Described.reads (events (Denylist.run P args s))) ->
               deny_candidate path.
Proof.
  apply deny_run_cases; try unread_case.
  - intros here st allFiles before p after cb e Hcwd sp _ _ _ Hrd Hsplit _ _ path Hin.
    cbn [events] in Hin. rewrite !reads_app, deny_loop_reads in Hin.
    change (Described.reads
              [combining (deny_fullPath P p); FileText (deny_fullPath P p); IO.report e])
      with (deny_fullPath P p :: Described.reads [IO.report e]) in Hin.
    rewrite reads_report in Hin. cbn in Hin.
    change (map (deny_fullPath P) before ++ [deny_fullPath P p])
      with (map (deny_fullPath P) before ++ map (deny_fullPath P) [p]) in Hin.
    rewrite <- map_app in Hin. apply in_map_iff in Hin. destruct Hin as (q & <- & Hq).
    apply (deny_candidate_of here allFiles q Hcwd Hrd). rewrite Hsplit.
    apply in_app_or in Hq. apply in_or_app.
    destruct Hq as [Hq | [<- | []]]; [now left | right; now left].
  - intros here st allFiles contents e Hcwd sp op doc _ _ _ Hrd _ _ _ path Hin.
    cbn [events] in Hin. rewrite !reads_app, deny_loop_reads in Hin.
    change (Described.reads [BunWrite op doc; IO.report e])
      with (Described.reads [IO.report e]) in Hin.
    rewrite reads_report, app_nil_r in Hin. cbn in Hin.
    apply in_map_iff in Hin. destruct Hin as (q & <- & Hq).
    now apply (deny_candidate_of here allFiles q Hcwd Hrd).
  - intros here st allFiles contents s' Hcwd sp op doc _ _ _ Hrd _ _ _ path Hin.
    cbn [events] in Hin. rewrite !reads_app, deny_loop_reads in Hin.
    cbn in Hin. rewrite app_nil_r in Hin.
    apply in_map_iff in Hin. destruct Hin as (q & <- & Hq).
    now apply (deny_candidate_of here allFiles q Hcwd Hrd).
Qed.

End ReadFacts.

(** X10.  A path is handed to the read primitive only if it is a candidate
    of the walk.  In [part_000] it is the source path joined with a listed
    path that has a markdown extension.  In [combine.ts] it is the joined
    parent path and name of a listed entry that is a regular file and that
    neither the folder test nor the file-name test excludes: a directory or
    an excluded entry is never read. *)
Theorem only_candidates_are_read
    {FS : Type} (P : Platform FS) (args : list string) (s : FS) (path : string) :
  (In path (Described.reads (events (Allowlist.run P args s))) ->
   exists here allFiles relativePath,
     cwd P = Ok here /\
     readdir P s (sourcePath_of P here args) = Ok allFiles /\
     In relativePath allFiles /\
     Allowlist.isMarkdown relativePath = true /\
     path = join P (sourcePath_of P here args) relativePath) /\
  (In path (Described.reads (events (Denylist.run P args s))) ->
   exists here allFiles entry,
     cwd P = Ok here /\
     readdirWithFileTypes P s (sourcePath_of P here args) = Ok allFiles /\
     In entry allFiles /\
     isFile entry = true /\
     Denylist.isExcludedFolder entry = false /\
     Denylist.isExcludedFile entry = false /\
     path = join P (parentPath entry) (name entry)).
Proof.
  split.
  - apply (allow_reads_candidates P args s).
  - apply (deny_reads_candidates P args s).
Qed.

Lemma only_candidates_are_read_witness :
  exists entry,
    In entry (MemFS.list_dirents MemFS.tree_zba "/w") /\ isFile entry = true /\
    "/w/b.txt" = MemFS.mem_join (parentPath entry) (name entry).
Proof.
  destruct (proj2 (only_candidates_are_read (MemFS.platform "/w") MemFS.argv
                     MemFS.tree_zba "/w/b.txt"))
    as (here & allFiles & entry & Hcwd & Hrd & Hin & Hfile & _ & _ & Hpath).
  - vm_compute. tauto.
  - injection Hcwd as <-. injection Hrd as <-. now exists entry.
Defined.

(** ** Markdown extensions in the two scripts *)

Section ExtensionFacts.

Lemma append_last (a b : string) (x y : ascii) :
  a ++ String x "" = b ++ String y "" -> x = y.
Proof.
  revert b. induction a as [|c a IH]; intros [|d b] H; cbn [String.append] in H.
  - now injection H.
  - injection H as _ H. now destruct b.
  - injection H as _ H. now destruct a.
  - injection H as _ H. now apply (IH b).
Qed.

Lemma not_md_suffix (stem : string) :
  JS.endsWith (stem ++ ".mdx") ".md" = false /\
  JS.endsWith (stem ++ ".markdown") ".md" = false.
Proof.
  split; apply not_true_is_false; intros H; apply endsWith_spec in H;
    destruct H as [pre H].
  - change ".mdx" with (".md" ++ String "x" "") in H.
    change ".md" with (".m" ++ String "d" "") in H at 2.
    rewrite <- !append_assoc in H. apply append_last in H. discriminate H.
  - change ".markdown" with (".markdow" ++ String "n" "") in H.
    change ".md" with (".m" ++ String "d" "") in H.
    rewrite <- !append_assoc in H. apply append_last in H. discriminate H.
Qed.

End ExtensionFacts.

(** X11.  A file named [*.mdx] or [*.markdown] is markdown for [part_000],
    which lists it as a candidate and copies its text as it is, but not for
    [combine.ts], whose loop tests the suffix [.md] only and pushes the text
    of such a file between two fence lines. *)
Theorem other_markdown_extensions_are_fenced
    {FS : Type} (P : Platform FS) (s : FS) (fileInfo : Dirent) (stem fileContent : string)
    (combinedContent : list string)
    (Hname : name fileInfo = stem ++ ".mdx" \/ name fileInfo = stem ++ ".markdown")
    (Htext : text P s (join P (parentPath fileInfo) (name fileInfo)) = Ok fileContent) :
  let fullPath := join P (parentPath fileInfo) (name fileInfo) in
  let separator :=
    JS.LF ++ "---" ++ JS.LF ++ "## Source: " ++ fullPath ++ JS.LF ++ "---" ++ JS.LF in
  let fenced := "```" ++ JS.LF ++ fileContent ++ JS.LF ++ "```" in
  Allowlist.isMarkdown (name fileInfo) = true /\
  Denylist.combine_loop P [fileInfo] combinedContent s
  = (Ok (combinedContent ++ [separator; fenced])%list,
     s, [combining fullPath; FileText fullPath]).
Proof.
  intros fullPath separator fenced. split.
  - apply isMarkdown_spec. exists stem. tauto.
  - assert (Hmd : JS.endsWith (name fileInfo) ".md" = false).
    { destruct Hname as [-> | ->]; apply not_md_suffix. }
    cbn [Denylist.combine_loop]. io_unfold. io_reduce.
    fold fullPath. unfold fullPath at 1. rewrite Htext, Hmd. reflexivity.
Qed.

Lemma other_markdown_extensions_are_fenced_witness :
  Denylist.combine_loop (MemFS.platform "/w")
    [{| name := "guide.markdown"; parentPath := "/w"; isFile := true |}]
    [title] [("/w/guide.markdown", MemFS.File "G")]
  = (Ok [title; separator_of "/w/guide.markdown"; "```" ++ JS.LF ++ "G" ++ JS.LF ++ "```"],
     [("/w/guide.markdown", MemFS.File "G")],
     [combining "/w/guide.markdown"; FileText "/w/guide.markdown"]).
Proof.
  exact (proj2 (other_markdown_extensions_are_fenced (MemFS.platform "/w")
                  [("/w/guide.markdown", MemFS.File "G")]
                  {| name := "guide.markdown"; parentPath := "/w"; isFile := true |}
                  "guide" "G" [title] (or_intror eq_refl) eq_refl)).
Defined.

(** ** Flags without a value *)

Lemma getArgValue_next (pre post : list string) (flag v defaultValue : string) :
  ~ In flag pre -> getArgValue (pre ++ flag :: v :: post) flag defaultValue = v.
Proof.
  intros Hpre. unfold getArgValue, JS.indexOf.
  rewrite indexOf_from_first by assumption.
  rewrite length_app. simpl List.length.
  destruct (Z.eqb_spec (0 + Z.of_nat (List.length pre)) (-1)); [lia|].
  destruct (Z.ltb_spec (0 + Z.of_nat (List.length pre) + 1)
              (Z.of_nat (List.length pre + S (S (List.length post))))); [|lia].
  simpl andb. cbv iota.
  replace (0 + Z.of_nat (List.length pre) + 1)%Z
    with (Z.of_nat (List.length pre) + 1)%Z by lia.
  now rewrite get_after.
Qed.

(** X12.  The resolver does not tell flags from values.  When [--src] is
    directly followed by [--out] and a token, the source directory is
    resolved from the string [--out], and [--out] still takes the token
    after it as the output path: both scripts then look for a directory
    named [--out]. *)
Theorem source_flag_takes_the_next_flag
    {FS : Type} (P : Platform FS) (here v : string) (pre post : list string)
    (Hsrc : ~ In "--src" pre) (Hout : ~ In "--out" pre) :
  let args := (pre ++ "--src" :: "--out" :: v :: post)%list in
  sourcePath_of P here args = resolve P here "--out" /\
  outputPath_of P here args = resolve P here v.
Proof.
  intros args. unfold sourcePath_of, outputPath_of, args. split; f_equal.
  - now apply getArgValue_next.
  - change (pre ++ "--src" :: "--out" :: v :: post)%list
      with (pre ++ ["--src"] ++ "--out" :: v :: post)%list.
    rewrite app_assoc. apply getArgValue_next.
    intros Hin. apply in_app_or in Hin. destruct Hin as [Hin | [Hin | []]].
    + now apply Hout.
    + discriminate Hin.
Qed.

Lemma source_flag_takes_the_next_flag_witness :
  sourcePath_of (MemFS.platform "/w") "/w" ["bun"; "combine.ts"; "--src"; "--out"; "x.md"]
  = "/w/--out" /\
  outputPath_of (MemFS.platform "/w") "/w" ["bun"; "combine.ts"; "--src"; "--out"; "x.md"]
  = "/w/x.md".
Proof.
  refine (source_flag_takes_the_next_flag (MemFS.platform "/w") "/w" "x.md"
            ["bun"; "combine.ts"] [] _ _).
  - cbn. intros [H | [H | []]]; discriminate H.
  - cbn. intros [H | [H | []]]; discriminate H.
Defined.

(** ** Each text in the document of the allowlist script *)

Lemma allow_blocks_app {FS : Type} (P : Platform FS) (s : FS) (sp : string)
      (before after cb ca : list string) :
  allow_reads_ok P s sp before cb ->
  allow_blocks (before ++ after) (cb ++ ca)
  = (allow_blocks before cb ++ allow_blocks after ca)%list.
Proof.
  induction 1 as [|p c before cb Hp Hrest IH]; [reflexivity|].
  unfold allow_blocks in *. cbn [app combine]. now rewrite IH.
Qed.

(** X13.  In [part_000], take any candidate, the candidates before and
    after it, and the texts read for all of them.  The written document is
    the document of the candidates before, then this candidate's separator,
    labelled with its relative path, and its text exactly as read, whatever
    its extension, then the blocks of the candidates after. *)
Theorem allowlist_document_holds_each_text
    {FS : Type} (P : Platform FS) (args : list string) (s : FS) (here : string) (st : Stats)
    (allFiles before after : list string) (relativePath : string)
    (cb ca : list string) (fileContent : string)
    (Hcwd : cwd P = Ok here)
    (Hex : exists_ P s (sourcePath_of P here args) = true)
    (Hst : stat P s (sourcePath_of P here args) = Ok st)
    (Hdir : isDirectory st = true)
    (Hrd : readdir P s (sourcePath_of P here args) = Ok allFiles)
    (Hfiles : Allowlist.markdownFiles_of allFiles = (before ++ relativePath :: after)%list)
    (Hbefore : allow_reads_ok P s (sourcePath_of P here args) before cb)
    (Hthis : text P s (join P (sourcePath_of P here args) relativePath) = Ok fileContent)
    (Hafter : allow_reads_ok P s (sourcePath_of P here args) after ca) :
  Described.writes (events (Allowlist.run P args s))
  = [(outputPath_of P here args,
      Described.document (combine before cb)
        ++ Described.block relativePath fileContent
        ++ Described.blocks (combine after ca))].
Proof.
  assert (Hok : allow_reads_ok P s (sourcePath_of P here args)
                  (Allowlist.markdownFiles_of allFiles) (cb ++ fileContent :: ca)).
  { rewrite Hfiles. apply Forall2_app; [exact Hbefore|]. constructor; assumption. }
  assert (Hne : Allowlist.markdownFiles_of allFiles <> []).
  { rewrite Hfiles. now destruct before. }
  destruct (allow_run_writes P args s here st Hcwd Hex Hst Hdir allFiles _ Hrd Hne Hok)
    as [Hw _].
  rewrite Hw. do 2 f_equal.
  rewrite Hfiles,
    (allow_blocks_app P s _ before (relativePath :: after) cb (fileContent :: ca) Hbefore).
  unfold Described.document. rewrite blocks_app, !append_assoc.
  reflexivity.
Qed.

Lemma allowlist_document_holds_each_text_witness :
  Described.writes (events (Allowlist.run (MemFS.platform "/w") MemFS.argv MemFS.tree_zba))
  = [("/w/combined.md",
      Described.document [("a.md", "A")]
        ++ Described.block "z.md" "Z"
        ++ Described.blocks [])].
Proof.
  refine (allowlist_document_holds_each_text (MemFS.platform "/w") MemFS.argv
            MemFS.tree_zba "/w" {| isDirectory := true |}
            (MemFS.list_names MemFS.tree_zba "/w") ["a.md"] [] "z.md" ["A"] [] "Z"
            eq_refl eq_refl eq_refl eq_refl eq_refl eq_refl _ eq_refl _).
  - repeat constructor.
  - constructor.
Defined.
